(** * redis-helper: circuit breaker and cache-aside orchestration

    A shallow embedding of [src/index.js].  The module-level [let] bindings
    of the source become one record of globals; every exported [async]
    function becomes a computation in a small state/error/trace monad; the
    Redis client, the caller's handler and the built-in [JSON] object are
    parameters, since they live outside the repository.

    Modelling decisions, all local to this file:
    - [failureCount], the clock and TTLs are integers ([Z]):
      [failureCount] is only ever incremented by one and compared with 3,
      and TTLs are whole seconds.  A Number inside a cached or published
      value is an integer or one of the other binary64 values.
    - An awaited external call (client command, handler) is a transformer of
      the whole system state: while the caller is suspended, timers, event
      handlers and other requests of the same process may run and touch the
      module globals.
    - [JSON.stringify] and [JSON.parse] are the two members of a class
      [JSON]; the operations are defined and proved for any instance.  One
      executable instance, [MiniJSON], written after ECMA-404 and ECMA-262,
      is given; closed examples are evaluated with it.
    - [console.*] output is not modelled.
    - [exists] is a keyword of Rocq: the operation is called [exists_].
    - Each computation returns the list of external calls it issued, in
      order, so that statements such as "the store is not contacted" or "the
      handler runs once" are statements about that list. *)

From Stdlib Require Import ZArith List String Ascii Bool Lia.
From Stdlib Require Import DecimalString DecimalPos.
Import ListNotations.

Local Open Scope string_scope.
Local Open Scope list_scope.
Local Open Scope Z_scope.

#[local] Set Warnings "-register-all".

(** ** JavaScript values and exceptions *)

(** The Number values that are not integers: negative zero, the two
    infinities, [NaN], and the binary fractions [m / 2^e] with [m] odd. *)
Inductive non_integer : Type :=
| NegZero
| Infinity (negative : bool)
| NaN
| Dyadic (m : Z) (e : positive).

(** The values that flow through the helper: what a handler returns, what is
    cached, what [JSON.parse] yields.  A Number is [VNum n] when it is the
    integer [n] and [VFloat x] otherwise; a string is held as the bytes of
    its UTF-8 encoding (a surrogate that is not part of a pair as the three
    bytes the same scheme gives its code). *)
Inductive value : Type :=
| VUndefined
| VNull
| VBool (b : bool)
| VNum (n : Z)
| VFloat (x : non_integer)
| VStr (s : string)
| VArr (items : list value)
| VObj (fields : list (string * value)).

(** A thrown [Error] object, identified by its message. *)
Inductive exn : Type :=
| Error (message : string).

(** The result of running a piece of code: normal completion or a throw. *)
Inductive outcome (A : Type) : Type :=
| Ok (a : A)
| Throw (e : exn).
Arguments Ok {A} a.
Arguments Throw {A} e.

(** [ToBoolean]: what [if (v)] and [!v] test. *)
Definition truthy (v : value) : bool :=
  match v with
  | VUndefined | VNull => false
  | VBool b => b
  | VNum n => negb (n =? 0)
  | VFloat NegZero | VFloat NaN => false
  | VFloat _ => true
  | VStr s => negb (String.eqb s "")
  | VArr _ | VObj _ => true
  end.

(** [v !== null && v !== undefined], the guard of line 223. *)
Definition is_nullish (v : value) : bool :=
  match v with
  | VUndefined | VNull => true
  | _ => false
  end.

(** [v !== null], the guard of line 212. *)
Definition is_null (v : value) : bool :=
  match v with
  | VNull => true
  | _ => false
  end.

(** ** The built-in [JSON] object

    [JSON.stringify] returns a string, returns [undefined] (for [undefined]
    itself), or throws; [JSON.parse] returns a value or throws a
    [SyntaxError]. *)
Class JSON : Type := {
  JSON_stringify : value -> outcome (option string);
  JSON_parse : string -> outcome value
}.

(** ** Module state *)

(** What the helper reads from a client object is its [isReady] flag. *)
Record Client : Type := mkClient { isReady : bool }.

(** [currentConfig]; the [socket] options are passed to [createClient]
    untouched and play no part below. *)
Record Config : Type := mkConfig {
  url : string;
  keyPrefix : string;
  defaultTtl : Z
}.

(** The argument of [initRedis]: each key may be absent. *)
Record UserConfig : Type := mkUserConfig {
  user_url : option string;
  user_keyPrefix : option string;
  user_defaultTtl : option Z
}.

(** [{ ...currentConfig, ...userConfig }], lines 56-60. *)
Definition merge (c : Config) (u : UserConfig) : Config :=
  {| url := match user_url u with Some x => x | None => url c end;
     keyPrefix := match user_keyPrefix u with Some x => x | None => keyPrefix c end;
     defaultTtl := match user_defaultTtl u with Some x => x | None => defaultTtl c end |}.

Definition FAILURE_THRESHOLD : Z := 3.
Definition RECOVERY_TIME : Z := 30000.

(** [reconnectStrategy], lines 19-22: [Math.min(retries * 100, 3000)]. *)
Definition reconnectStrategy (retries : Z) : Z := Z.min (retries * 100) 3000.

(** The external calls a computation can issue. *)
Inductive call : Type :=
| CallConnect
| CallGet (k : string)
| CallSetEx (k : string) (ttl : Z) (v : option string)
| CallSet (k : string) (v : option string)
| CallDel (k : string)
| CallExists (k : string)
| CallExpire (k : string) (ttl : Z)
| CallTtl (k : string)
| CallPublish (channel : string) (message : option string)
| CallSubscribe (channel : string)
| CallHandler.

Definition is_handler_call (c : call) : bool :=
  match c with
  | CallHandler => true
  | _ => false
  end.

Definition is_store_call (c : call) : bool := negb (is_handler_call c).

(** Number of handler invocations in a call list. *)
Definition handler_calls (t : list call) : nat :=
  List.length (filter is_handler_call t).

(** Number of commands sent to the store or the pub/sub transport. *)
Definition store_calls (t : list call) : nat :=
  List.length (filter is_store_call t).

Section Model.

Context {X : Type}.

(** The module-level bindings of lines 4-25, the clock and the pending
    recovery timers of the event loop (due times, in ms), and the state [X]
    of everything outside the module: the store behind the client and the
    application behind the handler. *)
Record State : Type := mkState {
  redisClient : option Client;
  redisPublisher : option Client;
  redisSubscriber : option Client;
  isCircuitOpen : bool;
  failureCount : Z;
  currentConfig : Config;
  clock : Z;
  timers : list Z;
  ext : X
}.

Definition set_clients (c p u : option Client) (s : State) : State :=
  mkState c p u (isCircuitOpen s) (failureCount s) (currentConfig s)
          (clock s) (timers s) (ext s).

Definition set_currentConfig (c : Config) (s : State) : State :=
  mkState (redisClient s) (redisPublisher s) (redisSubscriber s)
          (isCircuitOpen s) (failureCount s) c (clock s) (timers s) (ext s).

Definition set_isCircuitOpen (b : bool) (s : State) : State :=
  mkState (redisClient s) (redisPublisher s) (redisSubscriber s)
          b (failureCount s) (currentConfig s) (clock s) (timers s) (ext s).

Definition set_failureCount (n : Z) (s : State) : State :=
  mkState (redisClient s) (redisPublisher s) (redisSubscriber s)
          (isCircuitOpen s) n (currentConfig s) (clock s) (timers s) (ext s).

Definition set_clock (c : Z) (s : State) : State :=
  mkState (redisClient s) (redisPublisher s) (redisSubscriber s)
          (isCircuitOpen s) (failureCount s) (currentConfig s) c (timers s) (ext s).

Definition set_timers (l : list Z) (s : State) : State :=
  mkState (redisClient s) (redisPublisher s) (redisSubscriber s)
          (isCircuitOpen s) (failureCount s) (currentConfig s) (clock s) l (ext s).

Definition set_ext (x : X) (s : State) : State :=
  mkState (redisClient s) (redisPublisher s) (redisSubscriber s)
          (isCircuitOpen s) (failureCount s) (currentConfig s) (clock s)
          (timers s) x.

(** ** The circuit breaker (lines 27-47) *)

(** The callback handed to [setTimeout] at lines 34-38. *)
Definition recoveryCallback (s : State) : State :=
  set_failureCount 0 (set_isCircuitOpen false s).

(** [openCircuit], lines 30-40: guarded by [!isCircuitOpen]; opening
    schedules one recovery callback [RECOVERY_TIME] ms from now. *)
Definition openCircuit (s : State) : State :=
  if isCircuitOpen s then s
  else set_timers (timers s ++ [clock s + RECOVERY_TIME])
                  (set_isCircuitOpen true s).

(** [isAvailable], lines 45-47.  The [&&] chain yields its first falsy
    operand, so the result is [null] while no client exists. *)
Definition isAvailable (s : State) : value :=
  match redisClient s with
  | None => VNull
  | Some c => if isReady c then VBool (negb (isCircuitOpen s)) else VBool false
  end.

(** [isRedisReady], lines 97-99. *)
Definition isRedisReady (s : State) : value :=
  match redisClient s with
  | None => VNull
  | Some c => VBool (isReady c)
  end.

(** The two statements [failureCount++; if (failureCount >=
    FAILURE_THRESHOLD) openCircuit();] that the source repeats verbatim in
    the client's ['error'] listener (lines 71-72) and in the [catch] block of
    every operation (lines 160-161, 186-187, 254-255, ...). *)
Definition recordFailure (s : State) : State :=
  let s1 := set_failureCount (failureCount s + 1) s in
  if FAILURE_THRESHOLD <=? failureCount s1 then openCircuit s1 else s1.

(** The client's ['ready'] listener, lines 76-80. *)
Definition onReady (s : State) : State :=
  set_failureCount 0 (set_isCircuitOpen false s).

(** Time passing: the clock advances by [dt] ms and every recovery callback
    that has come due runs. *)
Definition elapse (dt : Z) (s : State) : State :=
  let c := clock s + dt in
  let due := filter (fun t => t <=? c) (timers s) in
  let pending := filter (fun t => negb (t <=? c)) (timers s) in
  fold_left (fun st _ => recoveryCallback st) due
            (set_timers pending (set_clock c s)).

(** Things that happen to the breaker between operations. *)
Inductive event : Type :=
| Failure
| Ready
| Elapse (dt : Z).

Definition step (e : event) (s : State) : State :=
  match e with
  | Failure => recordFailure s
  | Ready => onReady s
  | Elapse dt => elapse dt s
  end.

Definition run (es : list event) (s : State) : State :=
  fold_left (fun st e => step e st) es s.

(** Total time covered by a list of events. *)
Fixpoint elapsed (es : list event) : Z :=
  match es with
  | [] => 0
  | Elapse dt :: es' => dt + elapsed es'
  | _ :: es' => elapsed es'
  end.

Definition is_failure (e : event) : bool :=
  match e with
  | Failure => true
  | _ => false
  end.

(** Number of failures recorded in a list of events. *)
Definition failures (es : list event) : nat :=
  List.length (filter is_failure es).

(** Events the clock can produce or a failing command can cause: no
    ['ready'] notification, and time does not run backwards. *)
Definition quiet (e : event) : Prop :=
  match e with
  | Failure => True
  | Ready => False
  | Elapse dt => 0 <= dt
  end.

(** Any event, with time not running backwards. *)
Definition forward (e : event) : Prop :=
  match e with
  | Elapse dt => 0 <= dt
  | _ => True
  end.

(** What the breaker variables and the pending timers satisfy between
    events. *)
Definition breaker_invariant (s : State) : Prop :=
  0 <= failureCount s /\
  (isCircuitOpen s = false -> failureCount s < FAILURE_THRESHOLD) /\
  (isCircuitOpen s = true -> timers s <> []) /\
  Forall (fun d => clock s < d <= clock s + RECOVERY_TIME) (timers s).

(** ** Computations *)

(** An awaited external call. *)
Definition Ext (A : Type) : Type := State -> outcome A * State.

(** A computation of the module: result, final state, external calls
    issued. *)
Definition M (A : Type) : Type := State -> outcome A * State * list call.

Definition ret {A} (a : A) : M A := fun s => (Ok a, s, []).

Definition throw {A} (e : exn) : M A := fun s => (Throw e, s, []).

Definition bind {A B} (m : M A) (k : A -> M B) : M B := fun s =>
  match m s with
  | (Ok a, s1, t1) => let '(r, s2, t2) := k a s1 in (r, s2, t1 ++ t2)
  | (Throw e, s1, t1) => (Throw e, s1, t1)
  end.

(** [try { m } catch (error) { h error }]. *)
Definition try_catch {A} (m : M A) (h : exn -> M A) : M A := fun s =>
  match m s with
  | (Ok a, s1, t1) => (Ok a, s1, t1)
  | (Throw e, s1, t1) => let '(r, s2, t2) := h e s1 in (r, s2, t1 ++ t2)
  end.

Definition get_state : M State := fun s => (Ok s, s, []).

Definition modify (f : State -> State) : M unit := fun s => (Ok tt, f s, []).

(** [await f(...)], recorded as call [c]. *)
Definition await {A} (c : call) (f : Ext A) : M A := fun s =>
  let '(r, s1) := f s in (r, s1, [c]).

(** A pure expression that may throw. *)
Definition lift {A} (o : outcome A) : M A := fun s => (o, s, []).

End Model.

Arguments State X : clear implicits.
Arguments Ext X A : clear implicits.
Arguments M X A : clear implicits.

Declare Scope js_scope.
Delimit Scope js_scope with js.
Notation "x <- m ;; k" := (bind m (fun x => k))
  (at level 61, m at next level, right associativity) : js_scope.
Notation "m ;; k" := (bind m (fun _ => k))
  (at level 61, right associativity) : js_scope.

(** ** The Redis clients

    [createClient] of the redis package; [connect_all], the three
    [connect()] promises joined by [Promise.all] at lines 82-86 (what the
    clients do to the module while connecting, such as the ['ready']
    notification, is part of that call's effect on the state); and the
    commands of [RedisClient] (index.d.ts) that the helper issues, on the
    main client ([get] ... [ttl]), the publisher and the subscriber.  The
    value argument of the writing commands is what line 154 computed: a
    string, or [undefined] when [JSON.stringify] returned that. *)
Record Port (X : Type) : Type := mkPort {
  createClient : Config -> outcome Client;
  connect_all : Ext X unit;
  client_get : string -> Ext X (option string);
  client_setEx : string -> Z -> option string -> Ext X unit;
  client_set : string -> option string -> Ext X unit;
  client_del : string -> Ext X Z;
  client_exists : string -> Ext X Z;
  client_expire : string -> Z -> Ext X Z;
  client_ttl : string -> Ext X Z;
  publisher_publish : string -> option string -> Ext X Z;
  subscriber_subscribe : string -> (string -> Ext X unit) -> Ext X unit
}.
Arguments createClient {X} p.
Arguments connect_all {X} p.
Arguments client_get {X} p.
Arguments client_setEx {X} p.
Arguments client_set {X} p.
Arguments client_del {X} p.
Arguments client_exists {X} p.
Arguments client_expire {X} p.
Arguments client_ttl {X} p.
Arguments publisher_publish {X} p.
Arguments subscriber_subscribe {X} p.

Section Operations.

Context {X : Type} {J : JSON} (port : Port X).

Local Open Scope js_scope.

(** [!isAvailable()], the gate at the top of every operation. *)
Definition unavailable (s : State X) : bool := negb (truthy (isAvailable s)).

(** [initRedis], lines 54-92: merge the configuration, create the three
    clients, connect them; on any error, open the circuit. *)
Definition initRedis (userConfig : UserConfig) : M X unit :=
  try_catch
    (modify (fun s => set_currentConfig (merge (currentConfig s) userConfig) s) ;;
     s <- get_state ;;
     c <- lift (createClient port (currentConfig s)) ;;
     modify (fun s => set_clients (Some c) (redisPublisher s) (redisSubscriber s) s) ;;
     p <- lift (createClient port (currentConfig s)) ;;
     modify (fun s => set_clients (redisClient s) (Some p) (redisSubscriber s) s) ;;
     u <- lift (createClient port (currentConfig s)) ;;
     modify (fun s => set_clients (redisClient s) (redisPublisher s) (Some u) s) ;;
     await CallConnect (connect_all port))
    (fun _ => modify openCircuit).

(** [getRedisClient], lines 104-109. *)
Definition getRedisClient : M X Client := fun s =>
  match redisClient s with
  | None => throw (Error "Redis client not initialized. Call initRedis() first.") s
  | Some c => ret c s
  end.

(** [getRedisPublisher], lines 114-119. *)
Definition getRedisPublisher : M X Client := fun s =>
  match redisPublisher s with
  | None => throw (Error "Redis publisher not initialized. Call initRedis() first.") s
  | Some c => ret c s
  end.

(** [getRedisSubscriber], lines 124-129. *)
Definition getRedisSubscriber : M X Client := fun s =>
  match redisSubscriber s with
  | None => throw (Error "Redis subscriber not initialized. Call initRedis() first.") s
  | Some c => ret c s
  end.

(** [getKey], lines 136-138. *)
Definition getKey (s : State X) (key : string) : string :=
  (keyPrefix (currentConfig s) ++ key)%string.

(** The expression bound to [stringValue] at line 154 and to
    [stringMessage] at line 341:
    [typeof value === 'string' ? value : JSON.stringify(value)]. *)
Definition encode (v : value) : outcome (option string) :=
  match v with
  | VStr s => Ok (Some s)
  | _ => JSON_stringify v
  end.

(** Lines 180-183 of [getData]: what is returned for a non-empty reply
    [raw] of the store. *)
Definition decode (raw : string) (parseJson : bool) : value :=
  if parseJson then
    match JSON_parse raw with
    | Ok v => v
    | Throw _ => VStr raw
    end
  else VStr raw.

(** What the round trip through [encode] and [decode] asks of a value: a
    string must not be JSON text ([JSON.parse] rejects it); any other value
    must be JSON-serializable, that is, [JSON.parse] reads it back from the
    text [JSON.stringify] writes for it. *)
Definition storable (v : value) : Prop :=
  match v with
  | VStr str => exists e, JSON_parse str = Throw e
  | _ => exists raw, JSON_stringify v = Ok (Some raw) /\ JSON_parse raw = Ok v
  end.

(** The [catch] block shared by every operation but [getOrSet]: count the
    failure, open the circuit at the threshold, rethrow. *)
Definition rethrow_recorded {A} (error : exn) : M X A :=
  modify recordFailure ;; throw error.

(** A default parameter [ttl = currentConfig.defaultTtl]: [None] stands for
    an omitted (or [undefined]) argument. *)
Definition ttl_or_default (ttl : option Z) (s : State X) : Z :=
  match ttl with
  | Some t => t
  | None => defaultTtl (currentConfig s)
  end.

(** [setData], lines 146-164. *)
Definition setData (key : string) (v : value) (ttl : option Z) : M X unit :=
  fun s0 =>
  let ttl := ttl_or_default ttl s0 in
  try_catch
    (s <- get_state ;;
     if unavailable s then ret tt
     else
       let prefixedKey := getKey s key in
       stringValue <- lift (encode v) ;;
       if negb (ttl =? 0)
       then await (CallSetEx prefixedKey ttl stringValue)
                  (client_setEx port prefixedKey ttl stringValue)
       else await (CallSet prefixedKey stringValue)
                  (client_set port prefixedKey stringValue))
    rethrow_recorded s0.

(** [getData], lines 172-190.  [parseJson] defaults to [true]. *)
Definition getData (key : string) (parseJson : bool) : M X value :=
  try_catch
    (s <- get_state ;;
     if unavailable s then ret VNull
     else
       reply <- await (CallGet (getKey s key)) (client_get port (getKey s key)) ;;
       match reply with
       | None => ret VNull
       | Some raw =>
           if String.eqb raw "" then ret VNull
           else ret (decode raw parseJson)
       end)
    rethrow_recorded.

(** [getOrSet], lines 201-236.  The whole body, including both places
    where the handler is awaited, sits inside the [try]; the [catch] block
    awaits the handler again. *)
Definition getOrSet (key : string) (handler : Ext X value)
    (ttl : option Z) (parseJson : bool) : M X value :=
  fun s0 =>
  let ttl := ttl_or_default ttl s0 in
  try_catch
    (s <- get_state ;;
     if unavailable s then await CallHandler handler
     else
       cachedData <- getData key parseJson ;;
       if negb (is_null cachedData) then ret cachedData
       else
         freshData <- await CallHandler handler ;;
         (if negb (is_nullish freshData)
          then setData key freshData (Some ttl)
          else ret tt) ;;
         ret freshData)
    (fun _ => await CallHandler handler) s0.

(** [deleteData], lines 243-258. *)
Definition deleteData (key : string) : M X Z :=
  try_catch
    (s <- get_state ;;
     if unavailable s then ret 0
     else
       _ <- getRedisClient ;;
       await (CallDel (getKey s key)) (client_del port (getKey s key)))
    rethrow_recorded.

(** [exists], lines 265-281. *)
Definition exists_ (key : string) : M X bool :=
  try_catch
    (s <- get_state ;;
     if unavailable s then ret false
     else
       _ <- getRedisClient ;;
       result <- await (CallExists (getKey s key))
                       (client_exists port (getKey s key)) ;;
       ret (result =? 1))
    rethrow_recorded.

(** [setTTL], lines 289-305. *)
Definition setTTL (key : string) (ttl : Z) : M X bool :=
  try_catch
    (s <- get_state ;;
     if unavailable s then ret false
     else
       _ <- getRedisClient ;;
       result <- await (CallExpire (getKey s key) ttl)
                       (client_expire port (getKey s key) ttl) ;;
       ret (result =? 1))
    rethrow_recorded.

(** [getTTL], lines 312-327. *)
Definition getTTL (key : string) : M X Z :=
  try_catch
    (s <- get_state ;;
     if unavailable s then ret (-2)
     else
       _ <- getRedisClient ;;
       await (CallTtl (getKey s key)) (client_ttl port (getKey s key)))
    rethrow_recorded.

(** [publish], lines 334-349.  The channel is not prefixed. *)
Definition publish (channel : string) (message : value) : M X unit :=
  try_catch
    (s <- get_state ;;
     if unavailable s then ret tt
     else
       _ <- getRedisPublisher ;;
       stringMessage <- lift (encode message) ;;
       _ <- await (CallPublish channel stringMessage)
                  (publisher_publish port channel stringMessage) ;;
       ret tt)
    rethrow_recorded.

(** The listener registered at lines 363-370: the callback is called on
    the parsed message; if parsing or that call throws, it is called on the
    raw message. *)
Definition listener (callback : value -> Ext X unit) (message : string)
  : Ext X unit := fun s =>
  match JSON_parse message with
  | Ok parsedMessage =>
      match callback parsedMessage s with
      | (Ok u, s1) => (Ok u, s1)
      | (Throw _, s1) => callback (VStr message) s1
      end
  | Throw _ => callback (VStr message) s
  end.

(** [subscribe], lines 356-377. *)
Definition subscribe (channel : string) (callback : value -> Ext X unit)
  : M X unit :=
  try_catch
    (s <- get_state ;;
     if unavailable s then ret tt
     else
       _ <- getRedisSubscriber ;;
       await (CallSubscribe channel)
             (subscriber_subscribe port channel (listener callback)))
    rethrow_recorded.

(** What [getData] returns for a reply of the store (lines 179-183). *)
Definition reply_value (parseJson : bool) (reply : option string) : value :=
  match reply with
  | None => VNull
  | Some raw => if String.eqb raw "" then VNull else decode raw parseJson
  end.

(** One awaited command under the shared [catch] block. *)
Definition command_result {A B} (c : call) (f : A -> B) (r : outcome A * State X)
  : outcome B * State X * list call :=
  match r with
  | (Ok a, s1) => (Ok (f a), s1, [c])
  | (Throw e, s1) => (Throw e, recordFailure s1, [c])
  end.

(** The command [setData] sends for a resolved TTL. *)
Definition write_command (k : string) (seconds : Z) (v : option string)
  : Ext X unit :=
  if negb (seconds =? 0) then client_setEx port k seconds v
  else client_set port k v.

Definition write_call (k : string) (seconds : Z) (v : option string) : call :=
  if negb (seconds =? 0) then CallSetEx k seconds v else CallSet k v.

(** The state [initRedis] hands to [connect_all]: merged configuration,
    three fresh clients. *)
Definition prepared (c : Client) (cfg : Config) (s : State X) : State X :=
  set_clients (Some c) (Some c) (Some c) (set_currentConfig cfg s).

End Operations.

(** ** A concrete [JSON] for closed examples

    An executable [JSON.stringify] and [JSON.parse] for the values above,
    with the grammar of ECMA-404 and the conversions of ECMA-262: a number
    literal denotes the nearest binary64 value (ties to the even one), a
    Number is written with the fewest digits that denote it, a [\u] escape
    is decoded (two that form a surrogate pair into one character), and the
    keys of an object that are array indices come first, in ascending order.
    It instantiates [JSON] wherever a statement is evaluated on concrete
    data. *)
Module MiniJSON.

Definition dquote : ascii := "034"%char.
Definition backslash : ascii := "\"%char.

(** *** Numbers

    A positive rational is kept as a numerator and a denominator. *)

(** [10^k] and [2^k] for [k >= 0], and 1 for a negative [k]. *)
Definition pow10 (k : Z) : Z := 10 ^ Z.max 0 k.
Definition pow2 (k : Z) : Z := 2 ^ Z.max 0 k.

(** The [b] with [2^b <= N / D < 2^(b+1)]. *)
Definition binade (N D : Z) : Z :=
  let l := Z.log2 N - Z.log2 D in
  if D * pow2 l <=? N * pow2 (- l) then l else l - 1.

(** [num / den] rounded to the nearest integer, a tie to the even one. *)
Definition half_even (num den : Z) : Z :=
  let q := num / den in
  let r := num mod den in
  if 2 * r <? den then q
  else if den <? 2 * r then q + 1
  else if Z.even q then q else q + 1.

(** The binary64 value nearest to [N / D], as [(M, E)] for [M * 2^E]: 53
    significant bits, and no exponent below that of the subnormals. *)
Definition nearest (N D : Z) : Z * Z :=
  let E := Z.max (binade N D - 52) (-1074) in
  (half_even (N * pow2 (- E)) (D * pow2 E), E).

(** [p * 2^e] with the factors 2 of [p] moved into the exponent. *)
Fixpoint odd_part (p : positive) (e : Z) : positive * Z :=
  match p with
  | xO q => odd_part q (e + 1)
  | _ => (p, e)
  end.

(** The Number [M * 2^E], with the sign given apart; from [2^1024] on it
    is an infinity. *)
Definition number (negative : bool) (ME : Z * Z) : value :=
  let (M, E) := ME in
  match M with
  | Zpos p =>
      if 1024 <=? Z.log2 M + E then VFloat (Infinity negative)
      else
        let (m, e) := odd_part p E in
        let sm := if negative then Zneg m else Zpos m in
        match e with
        | Zneg k => VFloat (Dyadic sm k)
        | _ => VNum (sm * 2 ^ e)
        end
  | _ => if negative then VFloat NegZero else VNum 0
  end.

(** The Number a literal with the digits [d] and the decimal exponent [x]
    denotes.  An integer of at most [2^53] is a binary64 value as it is. *)
Definition to_number (negative : bool) (d x : Z) : value :=
  if d =? 0 then (if negative then VFloat NegZero else VNum 0)
  else if (0 <=? x) && (d * 10 ^ x <=? 2 ^ 53)
  then VNum (if negative then - (d * 10 ^ x) else d * 10 ^ x)
  else number negative (nearest (d * pow10 x) (pow10 (- x))).

(** [(M, E)] with [M] odd, or [(0, 0)]: one pair per value. *)
Definition reduce (ME : Z * Z) : Z * Z :=
  match fst ME with
  | Zpos p => let (m, e) := odd_part p (snd ME) in (Zpos m, e)
  | _ => (0, 0)
  end.

Definition same (a b : Z * Z) : bool :=
  (fst a =? fst b) && (snd a =? snd b).

(** Does [s * 10^e10] denote the binary64 value that [N / D] denotes? *)
Definition denotes (s e10 N D : Z) : bool :=
  same (reduce (nearest (s * pow10 e10) (pow10 (- e10)))) (reduce (nearest N D)).

Fixpoint magnitude_from (fuel : nat) (N D n : Z) : Z :=
  match fuel with
  | O => n
  | S f => if N * pow10 (- n) <? D * pow10 n then n
           else magnitude_from f N D (n + 1)
  end.

(** The [n] with [10^(n-1) <= N / D < 10^n], found from an estimate that
    is at most three too small. *)
Definition magnitude (N D : Z) : Z :=
  magnitude_from 4 N D (binade N D * 30103 / 100000 - 1).

(** [Number::toString], step 5: the digits [s] and the exponent [e10] with
    as few digits as possible such that [s * 10^e10] denotes [N / D]; of two
    such [s] the one nearer to [N / D], and the even one when they are
    equally near.  [k] is the number of digits tried. *)
Fixpoint shortest_from (fuel : nat) (k : Z) (N D n : Z) : Z * Z :=
  let e10 := n - k in
  let num := N * pow10 (- e10) in
  let den := D * pow10 e10 in
  let lo := num / den in
  let r := num mod den in
  match fuel with
  | O => (lo, e10)
  | S f =>
      let ok_lo := denotes lo e10 N D in
      let ok_hi := denotes (lo + 1) e10 N D in
      if ok_lo && ok_hi then
        if 2 * r <? den then (lo, e10)
        else if den <? 2 * r then (lo + 1, e10)
        else if Z.even lo then (lo, e10) else (lo + 1, e10)
      else if ok_lo then (lo, e10)
      else if ok_hi then (lo + 1, e10)
      else shortest_from f (k + 1) N D n
  end.

(** Seventeen digits denote any binary64 value; a [9] rounded up to [10]
    is the digit [1] one place higher. *)
Definition shortest (N D : Z) : Z * Z :=
  let (s, e10) := shortest_from 17 1 N D (magnitude N D) in
  if s mod 10 =? 0 then (s / 10, e10 + 1) else (s, e10).

Definition decimal (n : Z) : string :=
  NilZero.string_of_uint (N.to_uint (Z.to_N n)).

Fixpoint zeros (n : nat) : string :=
  match n with
  | O => ""
  | S k => String "0" (zeros k)
  end.

(** [Number::toString], steps 6 to 10: with [k] digits and
    [n = k + e10], plain digits up to [10^21], a decimal point inside or
    after [0.] down to [10^-6], and the exponent notation otherwise. *)
Definition layout (s e10 : Z) : string :=
  let ds := decimal s in
  let k := Z.of_nat (String.length ds) in
  let n := k + e10 in
  if (k <=? n) && (n <=? 21) then (ds ++ zeros (Z.to_nat (n - k)))%string
  else if (0 <? n) && (n <=? 21)
  then (substring 0 (Z.to_nat n) ds ++ "."
        ++ substring (Z.to_nat n) (Z.to_nat (k - n)) ds)%string
  else if (-6 <? n) && (n <=? 0) then ("0." ++ zeros (Z.to_nat (- n)) ++ ds)%string
  else
    let e := n - 1 in
    let sign := if e <? 0 then "-" else "+" in
    let es := (sign ++ decimal (Z.abs e))%string in
    match ds with
    | String c "" => String c ("e" ++ es)%string
    | String c r => String c ("." ++ r ++ "e" ++ es)%string
    | "" => ""
    end.

(** The text of the Number [N / D], with the sign given apart. *)
Definition number_text (negative : bool) (N D : Z) : string :=
  let (s, e10) := shortest N D in
  ((if negative then "-" else "") ++ layout s e10)%string.

(** *** Strings *)

Definition hex_digit (n : N) : ascii :=
  if (n <? 10)%N then ascii_of_N (48 + n) else ascii_of_N (87 + n).

Definition hex4 (cu : N) : string :=
  String (hex_digit (cu / 4096))
    (String (hex_digit ((cu / 256) mod 16))
       (String (hex_digit ((cu / 16) mod 16))
          (String (hex_digit (cu mod 16)) ""))).

(** How [JSON.stringify] writes one character of a string. *)
Definition escape_char (c : ascii) : string :=
  if Ascii.eqb c dquote then String backslash (String dquote "")
  else if Ascii.eqb c backslash then String backslash (String backslash "")
  else if Ascii.eqb c "008" then "\b"
  else if Ascii.eqb c "012" then "\f"
  else if Ascii.eqb c "010" then "\n"
  else if Ascii.eqb c "013" then "\r"
  else if Ascii.eqb c "009" then "\t"
  else if (N_of_ascii c <? 32)%N
       then String backslash
              (String "u" (String "0" (String "0"
                 (String (hex_digit (N_of_ascii c / 16))
                    (String (hex_digit (N_of_ascii c mod 16)) "")))))
  else String c "".

(** The code of a surrogate held in three bytes: [ED], a byte of
    [A0..BF], a byte of [80..BF]. *)
Definition surrogate_code (c b1 b2 : ascii) : option N :=
  let n1 := N_of_ascii b1 in
  let n2 := N_of_ascii b2 in
  if (Ascii.eqb c "237" && (160 <=? n1) && (n1 <=? 191)
      && (128 <=? n2) && (n2 <=? 191))%N
  then Some (55296 + 64 * (n1 - 160) + (n2 - 128))%N
  else None.

(** A surrogate that is not part of a pair is written as an escape. *)
Fixpoint escape (s : string) : string :=
  match s with
  | "" => ""
  | String c r =>
      let plain := (escape_char c ++ escape r)%string in
      match r with
      | String b1 (String b2 r2) =>
          match surrogate_code c b1 b2 with
          | Some cu =>
              String backslash (String "u" (hex4 cu ++ escape r2))%string
          | None => plain
          end
      | _ => plain
      end
  end.

Definition quote (s : string) : string :=
  String dquote (escape s ++ String dquote "")%string.

(** *** Printing *)

(** The text of a value.  An integer of at most [2^53] is written with all
    its digits; [NaN] and the infinities are written [null], and so is
    [undefined] inside an array; a field whose value is [undefined] is left
    out. *)
Fixpoint text (v : value) : string :=
  match v with
  | VUndefined | VNull => "null"
  | VBool true => "true"
  | VBool false => "false"
  | VNum n =>
      if Z.abs n <=? 2 ^ 53 then NilZero.string_of_int (Z.to_int n)
      else number_text (n <? 0) (Z.abs n) 1
  | VFloat NegZero => "0"
  | VFloat (Infinity _) | VFloat NaN => "null"
  | VFloat (Dyadic m e) => number_text (m <? 0) (Z.abs m) (2 ^ Zpos e)
  | VStr s => quote s
  | VArr items =>
      let fix elems (l : list value) : string :=
        match l with
        | [] => ""
        | x :: r =>
            (text x ++ match r with [] => "" | _ => "," ++ elems r end)%string
        end in
      ("[" ++ elems items ++ "]")%string
  | VObj fields =>
      let fix members (first : bool) (l : list (string * value)) : string :=
        match l with
        | [] => ""
        | (k, x) :: r =>
            match x with
            | VUndefined => members first r
            | _ => ((if first then "" else ",") ++ quote k ++ ":" ++ text x
                    ++ members false r)%string
            end
        end in
      ("{" ++ members true fields ++ "}")%string
  end.

(** The two local printers of [text], by name. *)
Fixpoint elems (l : list value) : string :=
  match l with
  | [] => ""
  | x :: r => (text x ++ match r with [] => "" | _ => "," ++ elems r end)%string
  end.

Fixpoint members (first : bool) (l : list (string * value)) : string :=
  match l with
  | [] => ""
  | (k, x) :: r =>
      match x with
      | VUndefined => members first r
      | _ => ((if first then "" else ",") ++ quote k ++ ":" ++ text x
              ++ members false r)%string
      end
  end.

Definition stringify (v : value) : outcome (option string) :=
  match v with
  | VUndefined => Ok None
  | _ => Ok (Some (text v))
  end.

(** *** Parsing *)

Definition is_ws (c : ascii) : bool :=
  Ascii.eqb c " " || Ascii.eqb c "009" || Ascii.eqb c "010" || Ascii.eqb c "013".

Fixpoint skip_ws (s : string) : string :=
  match s with
  | String c r => if is_ws c then skip_ws r else s
  | "" => ""
  end.

Definition digit_val (c : ascii) : option Z :=
  let n := N_of_ascii c in
  if ((48 <=? n) && (n <=? 57))%N then Some (Z.of_N (n - 48)) else None.

Fixpoint digits (s : string) (acc : Z) : Z * string :=
  match s with
  | String c r =>
      match digit_val c with
      | Some d => digits r (10 * acc + d)
      | None => (acc, s)
      end
  | "" => (acc, s)
  end.

(** An unsigned integer literal: [0], or a non-zero digit and more digits. *)
Definition parse_nat (s : string) : option (Z * string) :=
  match s with
  | String c r =>
      match digit_val c with
      | Some 0 => Some (0, r)
      | Some d => Some (digits r d)
      | None => None
      end
  | "" => None
  end.

(** One digit at least, read after the digits [acc]: the digits read so
    far, how many were added, and the rest. *)
Definition more_digits (s : string) (acc : Z) : option (Z * Z * string) :=
  match s with
  | String c _ =>
      match digit_val c with
      | Some _ =>
          let (d, rest) := digits s acc in
          Some (d, Z.of_nat (String.length s - String.length rest), rest)
      | None => None
      end
  | "" => None
  end.

(** The fraction of a literal, if there is one, after the integer [i]. *)
Definition parse_fraction (i : Z) (s : string) : option (Z * Z * string) :=
  match s with
  | String c r => if Ascii.eqb c "." then more_digits r i else Some (i, 0, s)
  | "" => Some (i, 0, s)
  end.

(** The exponent of a literal, if there is one. *)
Definition parse_exponent (s : string) : option (Z * string) :=
  match s with
  | String c r =>
      if Ascii.eqb c "e" || Ascii.eqb c "E" then
        let (negative, r1) :=
          match r with
          | String c1 r2 =>
              if Ascii.eqb c1 "-" then (true, r2)
              else if Ascii.eqb c1 "+" then (false, r2)
              else (false, r)
          | "" => (false, r)
          end in
        match more_digits r1 0 with
        | Some (e, _, rest) => Some (if negative then - e else e, rest)
        | None => None
        end
      else Some (0, s)
  | "" => Some (0, s)
  end.

(** A number literal after its sign: the integer, the fraction, the
    exponent. *)
Definition parse_unsigned (negative : bool) (s : string)
  : option (value * string) :=
  match parse_nat s with
  | None => None
  | Some (i, r1) =>
      match parse_fraction i r1 with
      | None => None
      | Some (d, f, r2) =>
          match parse_exponent r2 with
          | None => None
          | Some (e, r3) => Some (to_number negative d (e - f), r3)
          end
      end
  end.

Definition parse_number (s : string) : option (value * string) :=
  match s with
  | String c r =>
      if Ascii.eqb c "-" then parse_unsigned true r else parse_unsigned false s
  | "" => None
  end.

(** [strip_prefix p s]: the rest of [s] after its prefix [p]. *)
Fixpoint strip_prefix (p s : string) : option string :=
  match p, s with
  | "", _ => Some s
  | String a p1, String b s1 => if Ascii.eqb a b then strip_prefix p1 s1 else None
  | String _ _, "" => None
  end.

Definition hex_val (c : ascii) : option N :=
  let n := N_of_ascii c in
  if ((48 <=? n) && (n <=? 57))%N then Some (n - 48)%N
  else if ((97 <=? n) && (n <=? 102))%N then Some (n - 87)%N
  else if ((65 <=? n) && (n <=? 70))%N then Some (n - 55)%N
  else None.

(** The character an escape letter stands for. *)
Definition unescape (c : ascii) : option ascii :=
  if Ascii.eqb c dquote then Some dquote
  else if Ascii.eqb c backslash then Some backslash
  else if Ascii.eqb c "/" then Some "/"%char
  else if Ascii.eqb c "b" then Some "008"%char
  else if Ascii.eqb c "f" then Some "012"%char
  else if Ascii.eqb c "n" then Some "010"%char
  else if Ascii.eqb c "r" then Some "013"%char
  else if Ascii.eqb c "t" then Some "009"%char
  else None.

(** The bytes that hold the character with the code [cp]. *)
Definition utf8 (cp : N) : string :=
  let byte (n : N) (r : string) := String (ascii_of_N n) r in
  (if cp <? 128 then byte cp ""
   else if cp <? 2048 then byte (192 + cp / 64) (byte (128 + cp mod 64) "")
   else if cp <? 65536 then
     byte (224 + cp / 4096)
       (byte (128 + (cp / 64) mod 64) (byte (128 + cp mod 64) ""))
   else
     byte (240 + cp / 262144)
       (byte (128 + (cp / 4096) mod 64)
          (byte (128 + (cp / 64) mod 64) (byte (128 + cp mod 64) ""))))%N.

Definition is_high (cu : N) : bool := ((55296 <=? cu) && (cu <=? 56319))%N.
Definition is_low (cu : N) : bool := ((56320 <=? cu) && (cu <=? 57343))%N.

(** The character a surrogate pair stands for. *)
Definition pair_code (high low : N) : N :=
  (65536 + 1024 * (high - 55296) + (low - 56320))%N.

(** Where the reader of a string literal stands: between characters, after
    a backslash, or inside the four digits of a [\u] escape, [read] of them
    read; [high] is the high surrogate read just before, if any, which the
    next escape may complete to a pair. *)
Inductive scan_state : Type :=
| Between (high : option N)
| Escaped (high : option N)
| Hex (high : option N) (read : nat) (acc : N).

Definition pending (high : option N) : string :=
  match high with
  | Some cu => utf8 cu
  | None => ""
  end.

Definition emit (bytes : string) (r : option (string * string))
  : option (string * string) :=
  match r with
  | Some (body, rest) => Some ((bytes ++ body)%string, rest)
  | None => None
  end.

(** The characters of a string literal up to its closing quote, and the
    rest of the text. *)
Fixpoint scan (st : scan_state) (s : string) : option (string * string) :=
  match s with
  | "" => None
  | String c r =>
      match st with
      | Between high =>
          if Ascii.eqb c dquote then Some (pending high, r)
          else if Ascii.eqb c backslash then scan (Escaped high) r
          else if (N_of_ascii c <? 32)%N then None
          else emit (pending high ++ String c "") (scan (Between None) r)
      | Escaped high =>
          if Ascii.eqb c "u" then scan (Hex high 0 0) r
          else
            match unescape c with
            | Some c1 => emit (pending high ++ String c1 "") (scan (Between None) r)
            | None => None
            end
      | Hex high read acc =>
          match hex_val c with
          | None => None
          | Some h =>
              let cu := (16 * acc + h)%N in
              match read with
              | S (S (S _)) =>
                  match high with
                  | Some hi =>
                      if is_low cu
                      then emit (utf8 (pair_code hi cu)) (scan (Between None) r)
                      else if is_high cu
                      then emit (utf8 hi) (scan (Between (Some cu)) r)
                      else emit (utf8 hi ++ utf8 cu) (scan (Between None) r)
                  | None =>
                      if is_high cu then scan (Between (Some cu)) r
                      else emit (utf8 cu) (scan (Between None) r)
                  end
              | _ => scan (Hex high (S read) cu) r
              end
          end
      end
  end.

(** The body of a string literal, after its opening quote. *)
Definition parse_string_body (s : string) : option (string * string) :=
  scan (Between None) s.

(** *** Objects *)

(** An array index: the decimal form, without leading zeros, of an integer
    below [2^32 - 1]. *)
Definition array_index (k : string) : option Z :=
  match parse_nat k with
  | Some (i, "") => if i <=? 4294967294 then Some i else None
  | _ => None
  end.

(** Does a new key [k] go before the key [k1]?  Array indices are kept in
    ascending order and before all other keys. *)
Definition goes_before (k k1 : string) : bool :=
  match array_index k, array_index k1 with
  | Some i, Some j => i <? j
  | Some _, None => true
  | None, _ => false
  end.

(** Assigning a property: a key already present keeps its place and takes
    the new value; a new array index goes to its place among the indices;
    any other new key goes last. *)
Fixpoint obj_set (k : string) (v : value) (l : list (string * value))
  : list (string * value) :=
  match l with
  | [] => [(k, v)]
  | (k1, v1) :: r =>
      if String.eqb k1 k then (k1, v) :: r
      else if goes_before k k1 then (k, v) :: l
      else (k1, v1) :: obj_set k v r
  end.

Definition obj_of_members (l : list (string * value)) : list (string * value) :=
  fold_left (fun acc kv => obj_set (fst kv) (snd kv) acc) l [].

(** Recursive descent, bounded by [fuel] levels of calls. *)
Fixpoint parse_value (fuel : nat) (s : string) {struct fuel}
  : option (value * string) :=
  match fuel with
  | O => None
  | S fuel1 =>
      match skip_ws s with
      | "" => None
      | String c r =>
          if Ascii.eqb c "n" then
            option_map (pair VNull) (strip_prefix "ull" r)
          else if Ascii.eqb c "t" then
            option_map (pair (VBool true)) (strip_prefix "rue" r)
          else if Ascii.eqb c "f" then
            option_map (pair (VBool false)) (strip_prefix "alse" r)
          else if Ascii.eqb c dquote then
            match parse_string_body r with
            | Some (body, rest) => Some (VStr body, rest)
            | None => None
            end
          else if Ascii.eqb c "[" then
            match skip_ws r with
            | String c1 rest =>
                if Ascii.eqb c1 "]" then Some (VArr [], rest)
                else
                  match parse_elems fuel1 r with
                  | Some (l, rest1) => Some (VArr l, rest1)
                  | None => None
                  end
            | "" => None
            end
          else if Ascii.eqb c "{" then
            match skip_ws r with
            | String c1 rest =>
                if Ascii.eqb c1 "}" then Some (VObj [], rest)
                else
                  match parse_members fuel1 r with
                  | Some (l, rest1) => Some (VObj (obj_of_members l), rest1)
                  | None => None
                  end
            | "" => None
            end
          else parse_number (String c r)
      end
  end
with parse_elems (fuel : nat) (s : string) {struct fuel}
  : option (list value * string) :=
  match fuel with
  | O => None
  | S fuel1 =>
      match parse_value fuel1 s with
      | None => None
      | Some (v, r) =>
          match skip_ws r with
          | String c r1 =>
              if Ascii.eqb c "," then
                match parse_elems fuel1 r1 with
                | Some (l, rest) => Some (v :: l, rest)
                | None => None
                end
              else if Ascii.eqb c "]" then Some ([v], r1)
              else None
          | "" => None
          end
      end
  end
with parse_members (fuel : nat) (s : string) {struct fuel}
  : option (list (string * value) * string) :=
  match fuel with
  | O => None
  | S fuel1 =>
      match skip_ws s with
      | String c r =>
          if Ascii.eqb c dquote then
            match parse_string_body r with
            | None => None
            | Some (k, r1) =>
                match skip_ws r1 with
                | String c2 r2 =>
                    if Ascii.eqb c2 ":" then
                      match parse_value fuel1 r2 with
                      | None => None
                      | Some (v, r3) =>
                          match skip_ws r3 with
                          | String c4 r4 =>
                              if Ascii.eqb c4 "," then
                                match parse_members fuel1 r4 with
                                | Some (l, rest) => Some ((k, v) :: l, rest)
                                | None => None
                                end
                              else if Ascii.eqb c4 "}" then Some ([(k, v)], r4)
                              else None
                          | "" => None
                          end
                      end
                    else None
                | "" => None
                end
            end
          else None
      | "" => None
      end
  end.

Definition syntax_error : exn := Error "SyntaxError".

Definition parse (s : string) : outcome value :=
  match parse_value (S (String.length s)) s with
  | Some (v, rest) =>
      match skip_ws rest with
      | "" => Ok v
      | _ => Throw syntax_error
      end
  | None => Throw syntax_error
  end.

Definition json : JSON :=
  {| JSON_stringify := stringify; JSON_parse := parse |}.

(** *** Vocabulary for the round-trip proof *)

Fixpoint distinct (l : list string) : bool :=
  match l with
  | [] => true
  | k :: r => negb (existsb (String.eqb k) r) && distinct r
  end.

(** Keys in the order an object keeps them. *)
Fixpoint key_ordered (l : list string) : bool :=
  match l with
  | a :: (b :: _) as r => negb (goes_before b a) && key_ordered r
  | _ => true
  end.

(** No surrogate outside a pair. *)
Fixpoint no_surrogate (s : string) : bool :=
  match s with
  | "" => true
  | String c r =>
      match r with
      | String b1 (String b2 _) =>
          match surrogate_code c b1 b2 with
          | Some _ => false
          | None => no_surrogate r
          end
      | _ => no_surrogate r
      end
  end.

(** The values whose reading back is proved below: [null], the booleans,
    the integers of at most [2^53] in size, the strings without a lone
    surrogate, and the arrays and objects made of them, an object with its
    keys distinct and in the order an object keeps them. *)
Fixpoint simple (v : value) : bool :=
  match v with
  | VUndefined | VFloat _ => false
  | VNull | VBool _ => true
  | VNum n => Z.abs n <=? 2 ^ 53
  | VStr s => no_surrogate s
  | VArr items => forallb simple items
  | VObj fields =>
      distinct (map fst fields) && key_ordered (map fst fields)
      && forallb (fun kv => no_surrogate (fst kv) && simple (snd kv)) fields
  end.

(** What [simple] asks of each field of an object. *)
Definition simple_field (kv : string * value) : bool :=
  no_surrogate (fst kv) && simple (snd kv).

(** Horner value of a digit sequence, most significant digit first. *)
Fixpoint uval (d : Decimal.uint) (acc : Z) : Z :=
  match d with
  | Decimal.Nil => acc
  | Decimal.D0 l => uval l (10 * acc)
  | Decimal.D1 l => uval l (10 * acc + 1)
  | Decimal.D2 l => uval l (10 * acc + 2)
  | Decimal.D3 l => uval l (10 * acc + 3)
  | Decimal.D4 l => uval l (10 * acc + 4)
  | Decimal.D5 l => uval l (10 * acc + 5)
  | Decimal.D6 l => uval l (10 * acc + 6)
  | Decimal.D7 l => uval l (10 * acc + 7)
  | Decimal.D8 l => uval l (10 * acc + 8)
  | Decimal.D9 l => uval l (10 * acc + 9)
  end.

(** What may follow a value in JSON text written by [text]. *)
Definition delimited (rest : string) : bool :=
  match rest with
  | "" => true
  | String c _ => Ascii.eqb c "," || Ascii.eqb c "]" || Ascii.eqb c "}"
  end.

(** The first character of a number: a digit or the sign. *)
Definition number_head (c : ascii) : bool :=
  Ascii.eqb c "-" ||
  match digit_val c with Some _ => true | None => false end.

(** The first character of the text of a value. *)
Definition value_head (c : ascii) : bool :=
  number_head c || Ascii.eqb c "n" || Ascii.eqb c "t" || Ascii.eqb c "f"
  || Ascii.eqb c dquote || Ascii.eqb c "[" || Ascii.eqb c "{".

(** Levels of recursive calls the parser spends on a value. *)
Fixpoint need (v : value) : nat :=
  match v with
  | VArr items =>
      S ((fix items_need (l : list value) : nat :=
            match l with
            | [] => O
            | x :: r => S (Nat.max (need x) (items_need r))
            end) items)
  | VObj fields =>
      S ((fix fields_need (l : list (string * value)) : nat :=
            match l with
            | [] => O
            | kx :: r => S (Nat.max (need (snd kx)) (fields_need r))
            end) fields)
  | _ => 1
  end.

(** The two local functions of [need], by name. *)
Fixpoint items_need (l : list value) : nat :=
  match l with
  | [] => O
  | x :: r => S (Nat.max (need x) (items_need r))
  end.

Fixpoint fields_need (l : list (string * value)) : nat :=
  match l with
  | [] => O
  | kx :: r => S (Nat.max (need (snd kx)) (fields_need r))
  end.

(** The parser reads back what [text] wrote, given enough fuel. *)
Definition reads_back (v : value) : Prop :=
  simple v = true ->
  forall fuel rest,
    (need v <= fuel)%nat -> delimited rest = true ->
    parse_value fuel (text v ++ rest) = Some (v, rest).

(** The fuel [parse] starts with is enough for the text of [v]. *)
Definition fuel_bound (v : value) : Prop :=
  simple v = true -> (need v <= S (String.length (text v)))%nat.

End MiniJSON.

(** ** A concrete store and concrete handlers for closed examples

    An in-memory key-value store behind the [Port] interface.  [plan] says,
    command by command, whether the next command fails (a dropped
    connection); [served] counts how often the application's handler ran. *)
Module MemStore.

Record Mem : Type := mkMem {
  kv : list (string * string);
  plan : list bool;
  served : nat
}.

Definition connection_lost : exn := Error "Socket closed unexpectedly".

Fixpoint lookup (k : string) (l : list (string * string)) : option string :=
  match l with
  | [] => None
  | (k1, v1) :: r => if String.eqb k1 k then Some v1 else lookup k r
  end.

Fixpoint remove (k : string) (l : list (string * string))
  : list (string * string) :=
  match l with
  | [] => []
  | (k1, v1) :: r =>
      if String.eqb k1 k then remove k r else (k1, v1) :: remove k r
  end.

Definition present (k : string) (l : list (string * string)) : Z :=
  match lookup k l with
  | Some _ => 1
  | None => 0
  end.

(** One command: fails if the plan says so, otherwise reads or updates the
    key-value list. *)
Definition command {A} (f : list (string * string) -> A * list (string * string))
  : Ext Mem A := fun s =>
  let m := ext s in
  match plan m with
  | true :: rest =>
      (Throw connection_lost, set_ext (mkMem (kv m) rest (served m)) s)
  | _ =>
      let '(a, kv1) := f (kv m) in
      (Ok a, set_ext (mkMem kv1 (tl (plan m)) (served m)) s)
  end.

Definition write (k : string) (v : option string) : Ext Mem unit :=
  match v with
  | Some text => command (fun l => (tt, (k, text) :: remove k l))
  | None => fun s => (Throw (Error "Invalid argument type"), s)
  end.

(** Connecting: refused if the plan says so; otherwise the three clients
    become ready and the main client's ['ready'] listener runs. *)
Definition connect : Ext Mem unit := fun s =>
  let m := ext s in
  match plan m with
  | true :: rest =>
      (Throw (Error "connect ECONNREFUSED"),
       set_ext (mkMem (kv m) rest (served m)) s)
  | _ =>
      (Ok tt,
       onReady (set_clients (Some (mkClient true)) (Some (mkClient true))
                            (Some (mkClient true))
                            (set_ext (mkMem (kv m) (tl (plan m)) (served m)) s)))
  end.

Definition port : Port Mem :=
  {| createClient := fun _ => Ok (mkClient false);
     connect_all := connect;
     client_get := fun k => command (fun l => (lookup k l, l));
     client_setEx := fun k _ v => write k v;
     client_set := fun k v => write k v;
     client_del := fun k => command (fun l => (present k l, remove k l));
     client_exists := fun k => command (fun l => (present k l, l));
     client_expire := fun k _ => command (fun l => (present k l, l));
     client_ttl := fun k => command (fun l => (2 * present k l - 2, l));
     publisher_publish := fun _ _ => command (fun l => (0, l));
     subscriber_subscribe := fun _ _ => command (fun l => (tt, l)) |}.

Definition bump (s : State Mem) : State Mem :=
  set_ext (mkMem (kv (ext s)) (plan (ext s)) (S (served (ext s)))) s.

(** [async () => v]. *)
Definition constant (v : value) : Ext Mem value := fun s => (Ok v, bump s).

(** A handler whose first run throws and whose later runs return [v]: a
    database query that times out once. *)
Definition flaky (msg : string) (v : value) : Ext Mem value := fun s =>
  match served (ext s) with
  | O => (Throw (Error msg), bump s)
  | S _ => (Ok v, bump s)
  end.

(** A handler that hands out consecutive numbers 1, 2, 3, ...:
    [async () => ++counter]. *)
Definition ticket : Ext Mem value := fun s =>
  (Ok (VNum (Z.of_nat (S (served (ext s))))), bump s).

(** The configuration literal of lines 14-25. *)
Definition defaultConfig : Config :=
  {| url := "redis://localhost:6379"; keyPrefix := "myapp:"; defaultTtl := 3600 |}.

(** The module as loaded, before [initRedis]: no clients, circuit closed. *)
Definition loaded (m : Mem) : State Mem :=
  mkState None None None false 0 defaultConfig 0 [] m.

(** The module after a successful [initRedis()]: three ready clients. *)
Definition connected (m : Mem) : State Mem :=
  mkState (Some (mkClient true)) (Some (mkClient true)) (Some (mkClient true))
          false 0 defaultConfig 0 [] m.

(** The module after an [initRedis()] whose [connect()] was refused: the
    clients exist but are not ready, and the [catch] block of lines 88-91 has
    called [openCircuit()]. *)
Definition refused (m : Mem) : State Mem :=
  mkState (Some (mkClient false)) (Some (mkClient false))
          (Some (mkClient false)) true 0 defaultConfig 0 [RECOVERY_TIME] m.

Definition no_overrides : UserConfig := mkUserConfig None None None.

Definition empty : Mem := mkMem [] [] O.

(** A store whose commands fail or succeed as listed. *)
Definition store_with_plan (p : list bool) : State Mem :=
  connected (mkMem [] p O).

(** The caller of a direct operation catching its error, as in the
    README's graceful-degradation example. *)
Definition caught (m : M Mem value) : M Mem value :=
  try_catch m (fun _ => ret VNull).

(** The state a command that failed on [store_with_plan [true]] leaves
    behind, before the [catch] block runs. *)
Definition after_failed_command : State Mem := store_with_plan [].

(** A handler that always throws: [async () => { throw new Error(msg) }]. *)
Definition failing (msg : string) : Ext Mem value := fun s =>
  (Throw (Error msg), bump s).


(** A subscriber's callback that accepts objects only:
    [(m) => { if (typeof m !== 'object') throw new Error('not an object') }]. *)
Definition picky : value -> Ext Mem unit := fun m s =>
  match m with
  | VObj _ | VArr _ | VNull => (Ok tt, bump s)
  | _ => (Throw (Error "not an object"), bump s)
  end.

(** A redis package whose [createClient] rejects an empty URL. *)
Definition strict_port : Port Mem :=
  {| createClient := fun cfg =>
       if String.eqb (url cfg) "" then Throw (Error "Invalid URL")
       else Ok (mkClient false);
     connect_all := connect;
     client_get := client_get port;
     client_setEx := client_setEx port;
     client_set := client_set port;
     client_del := client_del port;
     client_exists := client_exists port;
     client_expire := client_expire port;
     client_ttl := client_ttl port;
     publisher_publish := publisher_publish port;
     subscriber_subscribe := subscriber_subscribe port |}.

(** A closed circuit with a recovery timer still pending: the circuit
    opened at time 0, and the client reported ['ready'] ten seconds later. *)
Definition reconnected : State Mem :=
  run [Failure; Failure; Failure; Elapse 10000; Ready] (store_with_plan []).

End MemStore.

(** * Properties *)

(** ** The circuit breaker *)

Section Breaker.

Context {X : Type}.
Implicit Types (s : State X) (es : list event).

Lemma run_app es1 es2 s : run (es1 ++ es2) s = run es2 (run es1 s).
Proof. unfold run. apply fold_left_app. Qed.

Lemma run_cons e es s : run (e :: es) s = run es (step e s).
Proof. reflexivity. Qed.

Lemma elapsed_nonneg es : Forall forward es -> 0 <= elapsed es.
Proof.
  induction 1 as [|e es He _ IH]; simpl; [lia|].
  destruct e; simpl in *; lia.
Qed.

Lemma quiet_forward e : quiet e -> forward e.
Proof. destruct e; simpl; tauto. Qed.

Lemma Forall_quiet_forward es : Forall quiet es -> Forall forward es.
Proof. intros H. eapply Forall_impl; [|exact H]. apply quiet_forward. Qed.

(** Running the due callbacks touches only the two breaker variables. *)
Lemma callbacks_frame (due : list Z) s :
  let s1 := fold_left (fun st _ => recoveryCallback st) due s in
  clock s1 = clock s /\ timers s1 = timers s /\ redisClient s1 = redisClient s /\
  (due = [] -> s1 = s) /\
  (due <> [] -> isCircuitOpen s1 = false /\ failureCount s1 = 0).
Proof.
  revert s. induction due as [|d due IH]; intros s; simpl.
  - repeat split; congruence.
  - destruct (IH (recoveryCallback s)) as (Hc & Ht & Hr & Hnil & Hcons).
    simpl in *. rewrite Hc, Ht, Hr. repeat split; try congruence.
    + destruct due as [|d1 due]; [rewrite Hnil by reflexivity; reflexivity|].
      apply Hcons. discriminate.
    + destruct due as [|d1 due]; [rewrite Hnil by reflexivity; reflexivity|].
      apply Hcons. discriminate.
Qed.

Lemma none_due (c : Z) (l : list Z) :
  Forall (fun t => c < t) l ->
  filter (fun t => t <=? c) l = [] /\ filter (fun t => negb (t <=? c)) l = l.
Proof.
  induction 1 as [|t l Ht _ [IH1 IH2]]; simpl; [split; reflexivity|].
  destruct (Z.leb_spec t c); [lia|]. simpl. rewrite IH1, IH2. split; reflexivity.
Qed.

(** With no timer due, time passing only moves the clock. *)
Lemma elapse_no_due dt s :
  Forall (fun t => clock s + dt < t) (timers s) ->
  elapse dt s = set_clock (clock s + dt) s.
Proof.
  intros H. unfold elapse.
  destruct (none_due _ _ H) as [Hdue Hpen].
  rewrite Hdue, Hpen. simpl. destruct s; reflexivity.
Qed.

(** A timer that has come due closes the circuit and zeroes the count. *)
Lemma elapse_due dt d s :
  In d (timers s) -> d <= clock s + dt ->
  isCircuitOpen (elapse dt s) = false /\ failureCount (elapse dt s) = 0 /\
  redisClient (elapse dt s) = redisClient s.
Proof.
  intros Hin Hle. unfold elapse.
  set (due := filter _ (timers s)).
  assert (Hne : due <> []).
  { assert (Hd : In d due).
    { apply filter_In. split; [exact Hin|]. now apply Z.leb_le. }
    intros E. rewrite E in Hd. exact Hd. }
  match goal with |- context [fold_left ?f due ?s0] =>
    destruct (callbacks_frame due s0) as (_ & _ & Hr & _ & Hcons) end.
  destruct (Hcons Hne) as [Ho Hf]. simpl in Hr. now rewrite Ho, Hf, Hr.
Qed.

(** A pending timer stays pending, and the clock follows the events, for as
    long as the timer is not due. *)
Lemma timer_stays_pending d es s :
  In d (timers s) -> Forall forward es -> clock s + elapsed es < d ->
  In d (timers (run es s)) /\ clock (run es s) = clock s + elapsed es /\
  redisClient (run es s) = redisClient s.
Proof.
  intros Hin Hf. revert s Hin.
  induction Hf as [|e es He Hes IH]; intros s Hin Hlt.
  - simpl in *. repeat split; try lia; exact Hin.
  - pose proof (elapsed_nonneg es Hes) as Hnn.
    rewrite run_cons.
    assert (Hstep : In d (timers (step e s)) /\
                    clock (step e s) + elapsed es = clock s + elapsed (e :: es) /\
                    redisClient (step e s) = redisClient s).
    { destruct e as [| |dt]; simpl in *.
      - unfold recordFailure, openCircuit. simpl.
        destruct (FAILURE_THRESHOLD <=? failureCount s + 1); simpl;
          [destruct (isCircuitOpen s); simpl|];
          repeat split; try lia; try exact Hin.
        apply in_or_app. now left.
      - repeat split; try lia; exact Hin.
      - unfold elapse.
        match goal with |- context [fold_left ?f ?due ?s0] =>
          destruct (callbacks_frame due s0) as (Hc & Ht & Hr & _ & _) end.
        simpl in Hc, Ht, Hr. rewrite Hc, Ht, Hr.
        repeat split; try lia.
        apply filter_In. split; [exact Hin|].
        destruct (Z.leb_spec d (clock s + dt)); [lia|reflexivity]. }
    destruct Hstep as (Hin1 & Hc1 & Hr1).
    destruct (IH (step e s) Hin1) as (H1 & H2 & H3); [lia|].
    repeat split; try lia; try congruence; exact H1.
Qed.

Lemma failures_app es1 es2 : failures (es1 ++ es2) = (failures es1 + failures es2)%nat.
Proof. unfold failures. now rewrite filter_app, length_app. Qed.

Lemma elapsed_app es1 es2 : elapsed (es1 ++ es2) = elapsed es1 + elapsed es2.
Proof.
  induction es1 as [|e es1 IH]; simpl; [reflexivity|].
  destruct e; simpl; lia.
Qed.

(** Below the threshold a closed circuit stays closed and schedules
    nothing; the count is the number of failures so far. *)
Lemma closed_below_threshold es s :
  isCircuitOpen s = false -> timers s = [] -> Forall quiet es ->
  failureCount s + Z.of_nat (failures es) < FAILURE_THRESHOLD ->
  isCircuitOpen (run es s) = false /\ timers (run es s) = [] /\
  failureCount (run es s) = failureCount s + Z.of_nat (failures es).
Proof.
  intros Ho Ht Hq. revert s Ho Ht.
  induction Hq as [|e es He Hes IH]; intros s Ho Ht Hlt.
  - unfold failures in *. simpl in *. repeat split; try assumption; lia.
  - rewrite run_cons. destruct e as [| |dt]; simpl in He; [|contradiction|].
    + change (failures (Failure :: es)) with (S (failures es)) in *.
      assert (Hs : step Failure s = set_failureCount (failureCount s + 1) s).
      { simpl. unfold recordFailure. simpl.
        destruct (Z.leb_spec FAILURE_THRESHOLD (failureCount s + 1)); [lia|reflexivity]. }
      rewrite Hs. destruct (IH (set_failureCount (failureCount s + 1) s)) as (H1 & H2 & H3);
        simpl; try assumption; try lia.
      repeat split; try assumption. rewrite H3. simpl. lia.
    + change (failures (Elapse dt :: es)) with (failures es) in *.
      assert (Hs : step (Elapse dt) s = set_clock (clock s + dt) s).
      { simpl. apply elapse_no_due. rewrite Ht. constructor. }
      rewrite Hs. destruct (IH (set_clock (clock s + dt) s)) as (H1 & H2 & H3);
        simpl; try assumption.
      repeat split; assumption.
Qed.

(** While the one scheduled timer is not due, an open circuit stays open
    and no further timer is scheduled. *)
Lemma open_until_due es s d :
  isCircuitOpen s = true -> timers s = [d] -> Forall quiet es ->
  clock s + elapsed es < d ->
  isCircuitOpen (run es s) = true /\ timers (run es s) = [d].
Proof.
  intros Ho Ht Hq. revert s Ho Ht.
  induction Hq as [|e es He Hes IH]; intros s Ho Ht Hlt.
  - simpl. split; assumption.
  - pose proof (elapsed_nonneg es (Forall_quiet_forward es Hes)) as Hnn.
    rewrite run_cons. destruct e as [| |dt]; simpl in He; [|contradiction|].
    + assert (Hs : step Failure s = set_failureCount (failureCount s + 1) s).
      { simpl. unfold recordFailure, openCircuit. simpl. rewrite Ho.
        destruct (FAILURE_THRESHOLD <=? failureCount s + 1); reflexivity. }
      rewrite Hs. apply IH; simpl; assumption.
    + assert (Hs : step (Elapse dt) s = set_clock (clock s + dt) s).
      { simpl. apply elapse_no_due. rewrite Ht. constructor; [|constructor].
        simpl in Hlt. lia. }
      rewrite Hs. apply IH; simpl; try assumption. simpl in Hlt. lia.
Qed.

Lemma open_is_unavailable s : isCircuitOpen s = true -> truthy (isAvailable s) = false.
Proof.
  intros Ho. unfold isAvailable. rewrite Ho.
  destruct (redisClient s) as [c|]; [destruct (isReady c)|]; reflexivity.
Qed.

(** The first opening.  Starting from a closed circuit with a zero count
    and no recovery pending, in any sequence
    of recorded failures and lapses of time the circuit is still closed
    before the failure that brings the count to [FAILURE_THRESHOLD]; that
    failure opens it and schedules exactly one recovery; and at every later
    point of the sequence that lies within [RECOVERY_TIME] of the opening the
    circuit is open, [isAvailable()] is falsy and the scheduled recovery is
    still that single one, however many more failures are recorded. *)
Theorem circuit_opens_once_at_threshold s (pre post : list event) :
  isCircuitOpen s = false -> failureCount s = 0 -> timers s = [] ->
  Forall quiet pre -> Forall quiet post ->
  Z.of_nat (failures pre) = FAILURE_THRESHOLD - 1 ->
  elapsed post < RECOVERY_TIME ->
  let opened := recordFailure (run pre s) in
  (forall es1 es2, pre = es1 ++ es2 ->
     isCircuitOpen (run es1 s) = false /\ timers (run es1 s) = []) /\
  isCircuitOpen opened = true /\
  timers opened = [clock opened + RECOVERY_TIME] /\
  (forall es1 es2, post = es1 ++ es2 ->
     isCircuitOpen (run es1 opened) = true /\
     timers (run es1 opened) = timers opened /\
     truthy (isAvailable (run es1 opened)) = false).
Proof.
  intros Ho Hc Ht Hpre Hpost Hn Hlt opened.
  assert (Hbefore : forall es1 es2, pre = es1 ++ es2 ->
            isCircuitOpen (run es1 s) = false /\ timers (run es1 s) = [] /\
            failureCount (run es1 s) = Z.of_nat (failures es1)).
  { intros es1 es2 E. subst pre. rewrite failures_app in Hn.
    apply Forall_app in Hpre. destruct Hpre as [Hq1 _].
    destruct (closed_below_threshold es1 s Ho Ht Hq1) as (H1 & H2 & H3).
    - rewrite Hc. unfold FAILURE_THRESHOLD in *. lia.
    - rewrite Hc in H3. repeat split; assumption. }
  destruct (Hbefore pre [] (eq_sym (app_nil_r pre))) as (Ho1 & Ht1 & Hc1).
  assert (Hopened : isCircuitOpen opened = true /\
                    timers opened = [clock opened + RECOVERY_TIME]).
  { subst opened. unfold recordFailure, openCircuit. simpl.
    rewrite Hc1, Hn, Ho1, Ht1. simpl. split; reflexivity. }
  destruct Hopened as [Ho2 Ht2].
  split; [|split; [exact Ho2|split; [exact Ht2|]]].
  - intros es1 es2 E. destruct (Hbefore es1 es2 E) as (H1 & H2 & _). now split.
  - intros es1 es2 E. subst post. rewrite elapsed_app in Hlt.
    apply Forall_app in Hpost. destruct Hpost as [Hq1 Hq2].
    pose proof (elapsed_nonneg es2 (Forall_quiet_forward es2 Hq2)) as Hnn.
    destruct (open_until_due es1 opened _ Ho2 Ht2 Hq1) as [H1 H2]; [lia|].
    repeat split.
    + exact H1.
    + rewrite H2, Ht2. reflexivity.
    + apply open_is_unavailable. exact H1.
Qed.

(** C6 (as amended).  Once [RECOVERY_TIME] has passed since [openCircuit]
    opened a closed circuit, whatever failures, ['ready'] notifications and
    lapses of time came in between, [isCircuitOpen] is false and
    [failureCount] is 0, and [isAvailable()] returns what [isRedisReady()]
    returns: its value is [true] exactly when a client exists and is
    ready. *)
Theorem circuit_closes_after_recovery_time s es (dt : Z) :
  isCircuitOpen s = false ->
  Forall forward es ->
  elapsed es < RECOVERY_TIME ->
  RECOVERY_TIME <= elapsed es + dt ->
  let s1 := elapse dt (run es (openCircuit s)) in
  isCircuitOpen s1 = false /\ failureCount s1 = 0 /\
  isAvailable s1 = isRedisReady s1 /\
  (isAvailable s1 = VBool true <->
   exists c, redisClient s1 = Some c /\ isReady c = true).
Proof.
  intros Ho Hf Hlt Hge s1.
  set (d := clock s + RECOVERY_TIME).
  assert (Hin : In d (timers (openCircuit s))).
  { unfold openCircuit. rewrite Ho. simpl. apply in_or_app. right. now left. }
  assert (Hck : clock (openCircuit s) = clock s).
  { unfold openCircuit. rewrite Ho. reflexivity. }
  destruct (timer_stays_pending d es (openCircuit s) Hin Hf) as (H1 & H2 & _).
  { rewrite Hck. unfold d. lia. }
  destruct (elapse_due dt d (run es (openCircuit s)) H1) as (Hopen & Hcount & _).
  { rewrite H2, Hck. unfold d. lia. }
  fold s1 in Hopen, Hcount.
  assert (Hav : isAvailable s1 = isRedisReady s1).
  { unfold isAvailable, isRedisReady. rewrite Hopen.
    destruct (redisClient s1) as [c|]; [destruct (isReady c)|]; reflexivity. }
  repeat split; try assumption.
  - rewrite Hav. unfold isRedisReady.
    destruct (redisClient s1) as [c|]; [|discriminate].
    intros E. exists c. split; [reflexivity|]. now inversion E.
  - intros (c & Hc & Hr). rewrite Hav. unfold isRedisReady.
    rewrite Hc, Hr. reflexivity.
Qed.

End Breaker.

(** ** The operations *)

Section OperationProofs.

Context {X : Type} {J : JSON} (port : Port X).
Implicit Types (s : State X) (e : exn) (t : list call).

(** What the shared [catch] block does to a computation. *)
Lemma try_rethrow_recorded {A} (m : M X A) s :
  try_catch m rethrow_recorded s =
  match m s with
  | (Ok a, s1, t) => (Ok a, s1, t)
  | (Throw e, s1, t) => (Throw e, recordFailure s1, t)
  end.
Proof.
  unfold try_catch, rethrow_recorded, bind, modify, throw.
  destruct (m s) as [[[a|e] s1] t]; [reflexivity|].
  now rewrite app_nil_r.
Qed.

(** The gate lets an operation through only if a client exists. *)
Lemma available_client s :
  unavailable s = false -> exists c, redisClient s = Some c.
Proof.
  unfold unavailable, isAvailable.
  destruct (redisClient s) as [c|]; [eauto|discriminate].
Qed.

(** A gated operation on an unavailable store: fallback value, state
    untouched, nothing issued. *)
Lemma gated_unavailable {A} (fallback : A) (body : State X -> M X A) s :
  unavailable s = true ->
  try_catch
    (bind get_state (fun s0 => if unavailable s0 then ret fallback else body s0))
    rethrow_recorded s
  = (Ok fallback, s, []).
Proof.
  intros Hu. rewrite try_rethrow_recorded.
  unfold bind, get_state, ret. rewrite Hu. reflexivity.
Qed.

(** A gated operation on an available store runs its body under the shared
    [catch] block. *)
Lemma gated_available {A} (fallback : A) (body : State X -> M X A) s :
  unavailable s = false ->
  try_catch
    (bind get_state (fun s0 => if unavailable s0 then ret fallback else body s0))
    rethrow_recorded s
  = match body s s with
    | (Ok a, s1, t) => (Ok a, s1, t)
    | (Throw e, s1, t) => (Throw e, recordFailure s1, t)
    end.
Proof.
  intros Hu. rewrite try_rethrow_recorded.
  unfold bind, get_state. rewrite Hu.
  destruct (body s s) as [[[a|e] s1] t]; reflexivity.
Qed.

Lemma getData_available key parseJson s :
  unavailable s = false ->
  getData port key parseJson s =
  command_result (CallGet (getKey s key)) (reply_value parseJson)
                 (client_get port (getKey s key) s).
Proof.
  intros Hu. unfold getData. rewrite gated_available by exact Hu.
  unfold bind, await, ret, command_result, reply_value.
  destruct (client_get port (getKey s key) s) as [[[raw|]|e] s1]; try reflexivity.
  destruct (String.eqb raw ""); reflexivity.
Qed.

Lemma setData_available key v ttl s :
  unavailable s = false ->
  setData port key v ttl s =
  match encode v with
  | Throw e => (Throw e, recordFailure s, [])
  | Ok stringValue =>
      let k := getKey s key in
      let seconds := ttl_or_default ttl s in
      if negb (seconds =? 0)
      then command_result (CallSetEx k seconds stringValue) (fun u => u)
                          (client_setEx port k seconds stringValue s)
      else command_result (CallSet k stringValue) (fun u => u)
                          (client_set port k stringValue s)
  end.
Proof.
  intros Hu. unfold setData. rewrite gated_available by exact Hu.
  unfold bind, lift, await, command_result.
  destruct (encode v) as [sv|e]; [|reflexivity].
  destruct (negb (ttl_or_default ttl s =? 0)).
  - destruct (client_setEx port _ _ sv s) as [[u|e] s1]; reflexivity.
  - destruct (client_set port _ sv s) as [[u|e] s1]; reflexivity.
Qed.

Lemma deleteData_available key s :
  unavailable s = false ->
  deleteData port key s =
  command_result (CallDel (getKey s key)) (fun n => n)
                 (client_del port (getKey s key) s).
Proof.
  intros Hu. destruct (available_client s Hu) as [c Hc].
  unfold deleteData. rewrite gated_available by exact Hu.
  unfold bind, getRedisClient, await, ret, command_result. rewrite Hc.
  destruct (client_del port (getKey s key) s) as [[n|e] s1]; reflexivity.
Qed.

Lemma exists_available key s :
  unavailable s = false ->
  exists_ port key s =
  command_result (CallExists (getKey s key)) (fun result => result =? 1)
                 (client_exists port (getKey s key) s).
Proof.
  intros Hu. destruct (available_client s Hu) as [c Hc].
  unfold exists_. rewrite gated_available by exact Hu.
  unfold bind, getRedisClient, await, ret, command_result. rewrite Hc.
  destruct (client_exists port (getKey s key) s) as [[n|e] s1]; reflexivity.
Qed.

Lemma setTTL_available key ttl s :
  unavailable s = false ->
  setTTL port key ttl s =
  command_result (CallExpire (getKey s key) ttl) (fun result => result =? 1)
                 (client_expire port (getKey s key) ttl s).
Proof.
  intros Hu. destruct (available_client s Hu) as [c Hc].
  unfold setTTL. rewrite gated_available by exact Hu.
  unfold bind, getRedisClient, await, ret, command_result. rewrite Hc.
  destruct (client_expire port (getKey s key) ttl s) as [[n|e] s1]; reflexivity.
Qed.

Lemma getTTL_available key s :
  unavailable s = false ->
  getTTL port key s =
  command_result (CallTtl (getKey s key)) (fun n => n)
                 (client_ttl port (getKey s key) s).
Proof.
  intros Hu. destruct (available_client s Hu) as [c Hc].
  unfold getTTL. rewrite gated_available by exact Hu.
  unfold bind, getRedisClient, await, ret, command_result. rewrite Hc.
  destruct (client_ttl port (getKey s key) s) as [[n|e] s1]; reflexivity.
Qed.

Lemma publish_available channel message s :
  unavailable s = false ->
  publish port channel message s =
  match redisPublisher s with
  | None =>
      (Throw (Error "Redis publisher not initialized. Call initRedis() first."),
       recordFailure s, [])
  | Some _ =>
      match encode message with
      | Throw e => (Throw e, recordFailure s, [])
      | Ok stringMessage =>
          command_result (CallPublish channel stringMessage) (fun _ => tt)
                         (publisher_publish port channel stringMessage s)
      end
  end.
Proof.
  intros Hu. unfold publish. rewrite gated_available by exact Hu.
  unfold bind, getRedisPublisher, lift, await, ret, throw, command_result.
  destruct (redisPublisher s) as [c|]; [|reflexivity].
  destruct (encode message) as [sm|e]; [|reflexivity].
  destruct (publisher_publish port channel sm s) as [[n|e] s1]; reflexivity.
Qed.

Lemma subscribe_available channel callback s :
  unavailable s = false ->
  subscribe port channel callback s =
  match redisSubscriber s with
  | None =>
      (Throw (Error "Redis subscriber not initialized. Call initRedis() first."),
       recordFailure s, [])
  | Some _ =>
      command_result (CallSubscribe channel) (fun u => u)
                     (subscriber_subscribe port channel (listener callback) s)
  end.
Proof.
  intros Hu. unfold subscribe. rewrite gated_available by exact Hu.
  unfold bind, getRedisSubscriber, await, ret, throw, command_result.
  destruct (redisSubscriber s) as [c|]; [|reflexivity].
  destruct (subscriber_subscribe port channel (listener callback) s)
    as [[u|e] s1]; reflexivity.
Qed.

(** What recording a failure does to the breaker variables. *)
Lemma recordFailure_spec s :
  failureCount (recordFailure s) = failureCount s + 1 /\
  (FAILURE_THRESHOLD <= failureCount s + 1 -> isCircuitOpen (recordFailure s) = true) /\
  (failureCount s + 1 < FAILURE_THRESHOLD ->
   isCircuitOpen (recordFailure s) = isCircuitOpen s).
Proof.
  unfold recordFailure, openCircuit. simpl.
  destruct (Z.leb_spec FAILURE_THRESHOLD (failureCount s + 1)) as [H|H].
  - destruct (isCircuitOpen s) eqn:Ho; simpl; repeat split; try lia; auto.
  - simpl. repeat split; try lia; auto.
Qed.

(** C8.  On an available store (circuit closed, client ready), when the
    command an operation sends fails with [e], leaving the system in state
    [s1], the operation ends in [recordFailure s1] and throws that same [e]:
    this holds for [getData], [setData] (with and without expiry),
    [deleteData], [exists], [setTTL], [getTTL], [publish] and [subscribe].
    Recording adds one to [failureCount] and opens the circuit when the new
    count has reached [FAILURE_THRESHOLD]. *)
Theorem failed_command_is_recorded_then_rethrown s s1 e :
  unavailable s = false ->
  (forall key parseJson,
     client_get port (getKey s key) s = (Throw e, s1) ->
     getData port key parseJson s
     = (Throw e, recordFailure s1, [CallGet (getKey s key)])) /\
  (forall key v ttl stringValue,
     encode v = Ok stringValue ->
     ttl_or_default ttl s <> 0 ->
     client_setEx port (getKey s key) (ttl_or_default ttl s) stringValue s
     = (Throw e, s1) ->
     setData port key v ttl s
     = (Throw e, recordFailure s1,
        [CallSetEx (getKey s key) (ttl_or_default ttl s) stringValue])) /\
  (forall key v ttl stringValue,
     encode v = Ok stringValue ->
     ttl_or_default ttl s = 0 ->
     client_set port (getKey s key) stringValue s = (Throw e, s1) ->
     setData port key v ttl s
     = (Throw e, recordFailure s1, [CallSet (getKey s key) stringValue])) /\
  (forall key,
     client_del port (getKey s key) s = (Throw e, s1) ->
     deleteData port key s
     = (Throw e, recordFailure s1, [CallDel (getKey s key)])) /\
  (forall key,
     client_exists port (getKey s key) s = (Throw e, s1) ->
     exists_ port key s
     = (Throw e, recordFailure s1, [CallExists (getKey s key)])) /\
  (forall key ttl,
     client_expire port (getKey s key) ttl s = (Throw e, s1) ->
     setTTL port key ttl s
     = (Throw e, recordFailure s1, [CallExpire (getKey s key) ttl])) /\
  (forall key,
     client_ttl port (getKey s key) s = (Throw e, s1) ->
     getTTL port key s
     = (Throw e, recordFailure s1, [CallTtl (getKey s key)])) /\
  (forall channel message stringMessage publisher,
     redisPublisher s = Some publisher ->
     encode message = Ok stringMessage ->
     publisher_publish port channel stringMessage s = (Throw e, s1) ->
     publish port channel message s
     = (Throw e, recordFailure s1, [CallPublish channel stringMessage])) /\
  (forall channel callback subscriber,
     redisSubscriber s = Some subscriber ->
     subscriber_subscribe port channel (listener callback) s = (Throw e, s1) ->
     subscribe port channel callback s
     = (Throw e, recordFailure s1, [CallSubscribe channel])) /\
  failureCount (recordFailure s1) = failureCount s1 + 1 /\
  (FAILURE_THRESHOLD <= failureCount s1 + 1 ->
   isCircuitOpen (recordFailure s1) = true).
Proof.
  intros Hu. repeat apply conj.
  - intros key pj H. rewrite getData_available, H by exact Hu. reflexivity.
  - intros key v ttl sv He Hn H. rewrite setData_available by exact Hu.
    rewrite He. cbv zeta. apply Z.eqb_neq in Hn. rewrite Hn, H. reflexivity.
  - intros key v ttl sv He Hz H. rewrite setData_available by exact Hu.
    rewrite He. cbv zeta. rewrite Hz, H. reflexivity.
  - intros key H. rewrite deleteData_available, H by exact Hu. reflexivity.
  - intros key H. rewrite exists_available, H by exact Hu. reflexivity.
  - intros key ttl H. rewrite setTTL_available, H by exact Hu. reflexivity.
  - intros key H. rewrite getTTL_available, H by exact Hu. reflexivity.
  - intros channel message sm c Hp He H.
    rewrite publish_available, Hp, He, H by exact Hu. reflexivity.
  - intros channel callback c Hs H.
    rewrite subscribe_available, Hs, H by exact Hu. reflexivity.
  - apply recordFailure_spec.
  - apply recordFailure_spec.
Qed.

(** When [isAvailable()] is falsy: the circuit is open, or there is no
    client, or the client is not ready. *)
Lemma unavailable_iff s :
  unavailable s = true <->
  isCircuitOpen s = true \/ redisClient s = None \/
  exists c, redisClient s = Some c /\ isReady c = false.
Proof.
  unfold unavailable, isAvailable.
  destruct (redisClient s) as [c|]; simpl.
  - destruct (isReady c) eqn:Hr, (isCircuitOpen s); simpl; split; intros H;
      try discriminate; try reflexivity; auto;
      try (right; right; exists c; split; [reflexivity|exact Hr]).
    destruct H as [H|[H|(c1 & H1 & H2)]]; try discriminate.
    inversion H1; subst. congruence.
  - split; auto.
Qed.

(** [getOrSet] on an unavailable store: the handler runs at once; if it
    throws, the [catch] block runs it again. *)
Lemma getOrSet_unavailable key handler ttl parseJson s :
  unavailable s = true ->
  getOrSet port key handler ttl parseJson s =
  match handler s with
  | (Ok v, s1) => (Ok v, s1, [CallHandler])
  | (Throw _, s1) =>
      let '(r, s2) := handler s1 in (r, s2, [CallHandler; CallHandler])
  end.
Proof.
  intros Hu. unfold getOrSet, try_catch, bind, get_state, await.
  rewrite Hu. destruct (handler s) as [[v|e] s1]; simpl; [reflexivity|].
  destruct (handler s1) as [r s2]. reflexivity.
Qed.

(** [getOrSet] on an available store, path by path. *)
Lemma getOrSet_available key handler ttl parseJson s :
  unavailable s = false ->
  getOrSet port key handler ttl parseJson s =
  match getData port key parseJson s with
  | (Throw _, s1, t1) =>
      let '(r, s2) := handler s1 in (r, s2, t1 ++ [CallHandler])
  | (Ok cachedData, s1, t1) =>
      if negb (is_null cachedData) then (Ok cachedData, s1, t1)
      else
        match handler s1 with
        | (Throw _, s2) =>
            let '(r, s3) := handler s2 in
            (r, s3, t1 ++ [CallHandler; CallHandler])
        | (Ok freshData, s2) =>
            if is_nullish freshData then (Ok freshData, s2, t1 ++ [CallHandler])
            else
              match setData port key freshData (Some (ttl_or_default ttl s)) s2 with
              | (Ok _, s3, t3) => (Ok freshData, s3, t1 ++ CallHandler :: t3)
              | (Throw _, s3, t3) =>
                  let '(r, s4) := handler s3 in
                  (r, s4, (t1 ++ CallHandler :: t3) ++ [CallHandler])
              end
        end
  end.
Proof.
  intros Hu. unfold getOrSet, try_catch, bind, get_state, await, ret.
  rewrite Hu.
  destruct (getData port key parseJson s) as [[[cached|e] s1] t1].
  - destruct (is_null cached); simpl.
    + destruct (handler s1) as [[fresh|e] s2].
      * destruct (is_nullish fresh); simpl.
        -- rewrite ?app_nil_r. reflexivity.
        -- destruct (setData port key fresh (Some (ttl_or_default ttl s)) s2)
             as [[[u|e] s3] t3].
           ++ rewrite ?app_nil_r. reflexivity.
           ++ destruct (handler s3) as [r s4]. reflexivity.
      * destruct (handler s2) as [r s3]. simpl.
        rewrite ?app_nil_r, <- ?app_assoc. reflexivity.
    + rewrite ?app_nil_r. reflexivity.
  - destruct (handler s1) as [r s2]. reflexivity.
Qed.

(** C9.  When [isAvailable()] is falsy, [getData] returns [null],
    [setData] returns without effect, [deleteData] returns 0, [exists] and
    [setTTL] return [false] and [getTTL] returns -2; none of them throws,
    changes the module state or issues a command.  [getOrSet] issues no
    command either: its first step is to run the handler, and when the
    handler returns [v], [getOrSet] returns [v] after that single run. *)
Theorem unavailable_store_fallbacks s :
  unavailable s = true ->
  (forall key parseJson, getData port key parseJson s = (Ok VNull, s, [])) /\
  (forall key v ttl, setData port key v ttl s = (Ok tt, s, [])) /\
  (forall key, deleteData port key s = (Ok 0, s, [])) /\
  (forall key, exists_ port key s = (Ok false, s, [])) /\
  (forall key ttl, setTTL port key ttl s = (Ok false, s, [])) /\
  (forall key, getTTL port key s = (Ok (-2), s, [])) /\
  (forall key handler ttl parseJson v s1,
     handler s = (Ok v, s1) ->
     getOrSet port key handler ttl parseJson s = (Ok v, s1, [CallHandler])) /\
  (forall key handler ttl parseJson,
     exists r s2 t,
       getOrSet port key handler ttl parseJson s = (r, s2, CallHandler :: t) /\
       store_calls (CallHandler :: t) = 0%nat).
Proof.
  intros Hu. repeat apply conj.
  - intros. apply (gated_unavailable VNull). exact Hu.
  - intros. unfold setData. apply (gated_unavailable tt). exact Hu.
  - intros. apply (gated_unavailable 0). exact Hu.
  - intros. apply (gated_unavailable false). exact Hu.
  - intros. apply (gated_unavailable false). exact Hu.
  - intros. apply (gated_unavailable (-2)). exact Hu.
  - intros key handler ttl pj v s1 H.
    rewrite getOrSet_unavailable, H by exact Hu. reflexivity.
  - intros key handler ttl pj. rewrite getOrSet_unavailable by exact Hu.
    destruct (handler s) as [[v|e] s1].
    + exists (Ok v), s1, []. split; reflexivity.
    + destruct (handler s1) as [r s2].
      exists r, s2, [CallHandler]. split; reflexivity.
Qed.


(** An unavailable-path or store-path computation never runs the
    handler. *)
Lemma getData_issues_no_handler_call key parseJson s :
  handler_calls (snd (getData port key parseJson s)) = 0%nat.
Proof.
  destruct (unavailable s) eqn:Hu.
  - unfold getData. rewrite (gated_unavailable VNull) by exact Hu. reflexivity.
  - rewrite getData_available by exact Hu. unfold command_result.
    destruct (client_get port (getKey s key) s) as [[reply|e] s1]; reflexivity.
Qed.

Lemma setData_issues_no_handler_call key v ttl s :
  handler_calls (snd (setData port key v ttl s)) = 0%nat.
Proof.
  destruct (unavailable s) eqn:Hu.
  - unfold setData. rewrite (gated_unavailable tt) by exact Hu. reflexivity.
  - rewrite setData_available by exact Hu. unfold command_result.
    destruct (encode v) as [sv|e]; [|reflexivity]. cbv zeta.
    destruct (negb (ttl_or_default ttl s =? 0)).
    + destruct (client_setEx port _ _ sv s) as [[u|e] s1]; reflexivity.
    + destruct (client_set port _ sv s) as [[u|e] s1]; reflexivity.
Qed.

Lemma handler_calls_app t1 t2 :
  handler_calls (t1 ++ t2) = (handler_calls t1 + handler_calls t2)%nat.
Proof. unfold handler_calls. now rewrite filter_app, length_app. Qed.

(** What the code does guarantee about the handler: [getOrSet] runs it
    once or twice, never more. *)
Lemma getOrSet_runs_handler_once_or_twice key handler ttl parseJson s :
  let n := handler_calls (snd (getOrSet port key handler ttl parseJson s)) in
  n = 1%nat \/ n = 2%nat \/
  (n = 0%nat /\ exists cached s1 t,
      getOrSet port key handler ttl parseJson s = (Ok cached, s1, t) /\
      is_null cached = false).
Proof.
  cbv zeta. destruct (unavailable s) eqn:Hu.
  - rewrite getOrSet_unavailable by exact Hu.
    destruct (handler s) as [[v|e] s1]; [left; reflexivity|].
    destruct (handler s1) as [r s2]. right; left; reflexivity.
  - rewrite getOrSet_available by exact Hu.
    pose proof (getData_issues_no_handler_call key parseJson s) as Hg.
    destruct (getData port key parseJson s) as [[[cached|e] s1] t1]; simpl in Hg.
    + destruct (is_null cached) eqn:Hn; simpl.
      * destruct (handler s1) as [[fresh|e] s2].
        -- destruct (is_nullish fresh).
           ++ left. simpl. rewrite handler_calls_app, Hg. reflexivity.
           ++ pose proof (setData_issues_no_handler_call key fresh
                            (Some (ttl_or_default ttl s)) s2) as Hs.
              destruct (setData port key fresh (Some (ttl_or_default ttl s)) s2)
                as [[[u|e] s3] t3]; simpl in Hs.
              ** left. simpl. rewrite handler_calls_app, Hg.
                 change (CallHandler :: t3) with ([CallHandler] ++ t3).
                 rewrite handler_calls_app, Hs. reflexivity.
              ** destruct (handler s3) as [r s4]. right; left. simpl.
                 rewrite !handler_calls_app, Hg.
                 change (CallHandler :: t3) with ([CallHandler] ++ t3).
                 rewrite handler_calls_app, Hs. reflexivity.
        -- destruct (handler s2) as [r s3]. right; left. simpl.
           rewrite handler_calls_app, Hg. reflexivity.
      * right; right. simpl. split; [exact Hg|]. eauto.
    + destruct (handler s1) as [r s2]. left. simpl.
      rewrite handler_calls_app, Hg. reflexivity.
Qed.

(** On a miss, a handler that throws is run a second time, and the
    outcome of that second run is the outcome of [getOrSet]. *)
Lemma getOrSet_reruns_throwing_handler key handler ttl parseJson s s1 s2 e t1 :
  unavailable s = false ->
  getData port key parseJson s = (Ok VNull, s1, t1) ->
  handler s1 = (Throw e, s2) ->
  getOrSet port key handler ttl parseJson s
  = (fst (handler s2), snd (handler s2), t1 ++ [CallHandler; CallHandler]).
Proof.
  intros Hu Hg Hh. rewrite getOrSet_available, Hg by exact Hu. simpl.
  rewrite Hh. destruct (handler s2) as [r s3]. reflexivity.
Qed.

(** On a miss, when writing the fresh value fails, the handler is run a
    second time, and the outcome of that second run (not the value already
    computed) is the outcome of [getOrSet]. *)
Lemma getOrSet_reruns_handler_after_failed_write
    key handler ttl parseJson s s1 s2 s3 v e t1 t3 :
  unavailable s = false ->
  getData port key parseJson s = (Ok VNull, s1, t1) ->
  handler s1 = (Ok v, s2) ->
  is_nullish v = false ->
  setData port key v (Some (ttl_or_default ttl s)) s2 = (Throw e, s3, t3) ->
  getOrSet port key handler ttl parseJson s
  = (fst (handler s3), snd (handler s3),
     (t1 ++ CallHandler :: t3) ++ [CallHandler]).
Proof.
  intros Hu Hg Hh Hn Hs. rewrite getOrSet_available, Hg by exact Hu. simpl.
  rewrite Hh, Hn, Hs. destruct (handler s3) as [r s4]. reflexivity.
Qed.

(** A command that succeeds leaves the breaker exactly as the store call
    left it: nothing resets [failureCount]. *)
Lemma successful_read_keeps_failureCount key parseJson s s1 reply :
  unavailable s = false ->
  client_get port (getKey s key) s = (Ok reply, s1) ->
  getData port key parseJson s
  = (Ok (reply_value parseJson reply), s1, [CallGet (getKey s key)]).
Proof.
  intros Hu H. rewrite getData_available, H by exact Hu. reflexivity.
Qed.

(** For any implementation of [JSON]: [encode] returns a string unchanged,
    and for a value [v] that [encode] turns into the text [raw],
    [decode raw true] is [v] exactly when [JSON.parse raw] is [v], or [v] is
    the string [raw] itself and [raw] is not JSON text. *)
Lemma decode_encode_iff (v : value) (raw : string) :
  encode v = Ok (Some raw) ->
  (forall str, v = VStr str -> raw = str) /\
  (decode raw true = v <->
   JSON_parse raw = Ok v \/ (v = VStr raw /\ exists e, JSON_parse raw = Throw e)) /\
  decode raw false = VStr raw.
Proof.
  intros He. repeat apply conj.
  - intros str E. subst v. simpl in He. congruence.
  - unfold decode. destruct (JSON_parse raw) as [w|e].
    + intros E. left. congruence.
    + intros E. right. split; [congruence|eauto].
  - unfold decode. intros [H|[H (e & H1)]]; rewrite ?H, ?H1; congruence.
  - reflexivity.
Qed.

End OperationProofs.

(** ** Further properties of the breaker *)

(** X4.  The reconnection delay never exceeds 3000 ms, never decreases as
    the retry count grows, is [retries * 100] up to 30 retries and 3000 from
    then on. *)
Theorem reconnectStrategy_bounds :
  (forall retries, reconnectStrategy retries <= 3000) /\
  (forall r1 r2, r1 <= r2 -> reconnectStrategy r1 <= reconnectStrategy r2) /\
  (forall retries, retries <= 30 -> reconnectStrategy retries = retries * 100) /\
  (forall retries, 30 <= retries -> reconnectStrategy retries = 3000).
Proof. unfold reconnectStrategy. repeat split; intros; lia. Qed.

Section BreakerInvariant.
Context {X : Type}.
Implicit Types (s : State X) (es : list event).

Lemma callbacks_close (due : list Z) s :
  let s1 := fold_left (fun st _ => recoveryCallback st) due s in
  (due = [] -> s1 = s) /\
  (due <> [] -> isCircuitOpen s1 = false /\ failureCount s1 = 0) /\
  clock s1 = clock s /\ timers s1 = timers s.
Proof.
  destruct (callbacks_frame due s) as (Hc & Ht & _ & Hn & Hd).
  cbv zeta. repeat split; auto; apply Hd; assumption.
Qed.

Lemma step_keeps_invariant e s :
  forward e -> breaker_invariant s -> breaker_invariant (step e s).
Proof.
  intros He (Hn & Hc & Ho & Ht). destruct e as [| |dt]; simpl in *.
  - (* Failure *)
    unfold recordFailure, openCircuit. simpl.
    destruct (Z.leb_spec FAILURE_THRESHOLD (failureCount s + 1)) as [Hge|Hlt].
    + destruct (isCircuitOpen s) eqn:Eo; simpl.
      * unfold breaker_invariant. simpl. rewrite Eo.
        split; [lia|]. split; [discriminate|]. split; [exact Ho|exact Ht].
      * unfold breaker_invariant. simpl.
        split; [lia|]. split; [discriminate|]. split.
        -- intros _ E. apply app_eq_nil in E. destruct E as [_ E]. discriminate.
        -- apply Forall_app. split; [exact Ht|].
           constructor; [unfold RECOVERY_TIME; lia|constructor].
    + unfold breaker_invariant. simpl.
      split; [lia|]. split; [|split; [exact Ho|exact Ht]].
      intros _. exact Hlt.
  - (* Ready *)
    unfold breaker_invariant, onReady. simpl.
    split; [lia|]. split; [intros _; unfold FAILURE_THRESHOLD; lia|].
    split; [discriminate|exact Ht].
  - (* Elapse *)
    unfold elapse.
    set (c := clock s + dt).
    set (due := filter (fun t => t <=? c) (timers s)).
    set (pending := filter (fun t => negb (t <=? c)) (timers s)).
    destruct (callbacks_close due (set_timers pending (set_clock c s)))
      as (Hnil & Hcons & Hck & Htm).
    cbv zeta in *. simpl in Hck, Htm.
    assert (Hpen : Forall (fun d => c < d <= c + RECOVERY_TIME) pending).
    { apply Forall_forall. intros d Hd. apply filter_In in Hd.
      destruct Hd as [Hin Hd]. rewrite Forall_forall in Ht.
      specialize (Ht d Hin). apply negb_true_iff in Hd.
      apply Z.leb_gt in Hd. subst c. lia. }
    destruct due as [|d0 due0] eqn:Edue.
    + rewrite Hnil by reflexivity.
      assert (Epen : pending = timers s).
      { subst pending.
        assert (Hall : forall t, In t (timers s) -> (t <=? c) = false).
        { intros t Hin. destruct (t <=? c) eqn:Et; [|reflexivity].
          assert (Hd : In t due) by (apply filter_In; auto).
          rewrite Edue in Hd. contradiction. }
        clear - Hall. induction (timers s) as [|t l IH]; simpl; [reflexivity|].
        rewrite (Hall t) by (now left). simpl. rewrite IH; [reflexivity|].
        intros t' Hin. apply Hall. now right. }
      unfold breaker_invariant. simpl.
      split; [exact Hn|]. split; [exact Hc|]. split.
      * rewrite Epen. exact Ho.
      * exact Hpen.
    + destruct Hcons as [Hopen Hcount]; [discriminate|].
      unfold breaker_invariant. rewrite Hopen, Hcount, Hck, Htm. simpl.
      split; [lia|]. split; [intros _; unfold FAILURE_THRESHOLD; lia|].
      split; [discriminate|exact Hpen].
Qed.

Lemma run_keeps_invariant es s :
  Forall forward es -> breaker_invariant s -> breaker_invariant (run es s).
Proof.
  intros Hf. revert s. induction Hf as [|e es He _ IH]; intros s Hs; [exact Hs|].
  rewrite run_cons. apply IH. now apply step_keeps_invariant.
Qed.

Lemma closed_start_invariant s :
  isCircuitOpen s = false -> failureCount s = 0 -> timers s = [] ->
  breaker_invariant s.
Proof.
  intros Ho Hc Ht. unfold breaker_invariant. rewrite Ho, Hc, Ht.
  split; [lia|]. split; [intros _; unfold FAILURE_THRESHOLD; lia|].
  split; [discriminate|constructor].
Qed.

(** Once every pending timer is due, the circuit is closed and nothing is
    pending. *)
Lemma recovery_closes s (dt : Z) :
  breaker_invariant s -> RECOVERY_TIME <= dt ->
  isCircuitOpen (elapse dt s) = false /\
  timers (elapse dt s) = [] /\
  failureCount (elapse dt s) < FAILURE_THRESHOLD.
Proof.
  intros (Hn & Hc & Ho & Ht) Hdt. unfold elapse.
  set (c := clock s + dt).
  assert (Hall : forall t, In t (timers s) -> (t <=? c) = true).
  { intros t Hin. rewrite Forall_forall in Ht. specialize (Ht t Hin).
    apply Z.leb_le. subst c. lia. }
  assert (Epen : filter (fun t => negb (t <=? c)) (timers s) = []).
  { clear - Hall. induction (timers s) as [|t l IH]; simpl; [reflexivity|].
    rewrite (Hall t) by (now left). simpl. apply IH. intros t' Hin. apply Hall. now right. }
  assert (Edue : filter (fun t => t <=? c) (timers s) = timers s).
  { clear - Hall. induction (timers s) as [|t l IH]; simpl; [reflexivity|].
    rewrite (Hall t) by (now left). rewrite IH; [reflexivity|].
    intros t' Hin. apply Hall. now right. }
  rewrite Epen, Edue.
  destruct (callbacks_close (timers s) (set_timers [] (set_clock c s)))
    as (Hnil & Hcons & Hck & Htm).
  cbv zeta in *. simpl in Htm. rewrite Htm.
  destruct (timers s) as [|d l] eqn:Et.
  - rewrite Hnil by reflexivity. simpl.
    destruct (isCircuitOpen s) eqn:Eo.
    + exfalso. now apply Ho.
    + split; [reflexivity|]. split; [reflexivity|]. now apply Hc.
  - destruct Hcons as [H1 H2]; [discriminate|]. rewrite H1, H2.
    split; [reflexivity|]. split; [reflexivity|]. unfold FAILURE_THRESHOLD. lia.
Qed.

(** X1.  Starting from a closed circuit with a zero count and no timer,
    after any sequence of failures, ['ready'] notifications and lapses of
    time: [failureCount] is not negative; while the circuit is closed it is
    below [FAILURE_THRESHOLD]; while the circuit is open a recovery timer is
    pending; and every pending timer is due within [RECOVERY_TIME]. *)
Theorem breaker_invariant_holds es s :
  isCircuitOpen s = false -> failureCount s = 0 -> timers s = [] ->
  Forall forward es ->
  let s1 := run es s in
  0 <= failureCount s1 /\
  (isCircuitOpen s1 = false -> failureCount s1 < FAILURE_THRESHOLD) /\
  (isCircuitOpen s1 = true -> timers s1 <> []) /\
  Forall (fun d => clock s1 < d <= clock s1 + RECOVERY_TIME) (timers s1).
Proof.
  intros Ho Hc Ht Hf.
  exact (run_keeps_invariant es s Hf (closed_start_invariant s Ho Hc Ht)).
Qed.

(** X2.  The circuit never stays open: whatever happened before, once
    [RECOVERY_TIME] passes without a further event the circuit is closed, no
    timer is pending and fewer than [FAILURE_THRESHOLD] failures are
    counted. *)
Theorem circuit_never_stays_open es s (dt : Z) :
  isCircuitOpen s = false -> failureCount s = 0 -> timers s = [] ->
  Forall forward es -> RECOVERY_TIME <= dt ->
  let s1 := elapse dt (run es s) in
  isCircuitOpen s1 = false /\ timers s1 = [] /\
  failureCount s1 < FAILURE_THRESHOLD.
Proof.
  intros Ho Hc Ht Hf Hdt.
  apply recovery_closes; [|exact Hdt].
  exact (run_keeps_invariant es s Hf (closed_start_invariant s Ho Hc Ht)).
Qed.

(** X3.  A recovery timer left over from an earlier opening (the circuit
    was closed again by a ['ready'] notification) closes a reopened circuit
    when it comes due, before [RECOVERY_TIME] has passed since the reopening;
    the timer of the reopening stays pending. *)
Theorem stale_timer_closes_early s (d dt : Z) :
  isCircuitOpen s = false -> In d (timers s) ->
  d <= clock s + dt -> dt < RECOVERY_TIME ->
  let s1 := elapse dt (openCircuit s) in
  isCircuitOpen s1 = false /\ failureCount s1 = 0 /\
  In (clock s + RECOVERY_TIME) (timers s1).
Proof.
  intros Ho Hin Hd Hdt s1.
  assert (Hck : clock (openCircuit s) = clock s)
    by (unfold openCircuit; rewrite Ho; reflexivity).
  assert (Htm : timers (openCircuit s) = timers s ++ [clock s + RECOVERY_TIME])
    by (unfold openCircuit; rewrite Ho; reflexivity).
  destruct (elapse_due dt d (openCircuit s)) as (H1 & H2 & _).
  { rewrite Htm. apply in_or_app. now left. }
  { rewrite Hck. exact Hd. }
  split; [exact H1|]. split; [exact H2|].
  subst s1. unfold elapse.
  match goal with |- context [fold_left ?f ?due ?s0] =>
    destruct (callbacks_frame due s0) as (_ & Ht & _) end.
  simpl in Ht. rewrite Ht. apply filter_In. split.
  - rewrite Htm. apply in_or_app. right. now left.
  - rewrite Hck. apply negb_true_iff. apply Z.leb_gt. lia.
Qed.

End BreakerInvariant.

(** ** Further properties of the operations *)

Section MoreOperationProofs.
Context {X : Type} {J : JSON} (port : Port X).
Implicit Types (s : State X) (e : exn) (t : list call).

Lemma append_cancel_l (p a b : string) : (p ++ a = p ++ b)%string -> a = b.
Proof. induction p as [|c p IH]; simpl; intros H; [exact H|]. inversion H. auto. Qed.

Lemma prefix_append (p a : string) : String.prefix p (p ++ a) = true.
Proof.
  induction p as [|c p IH]; simpl; [now destruct a|].
  destruct (Ascii.ascii_dec c c); [exact IH|congruence].
Qed.

(** X8.  For a given configuration, two keys get the same prefixed key
    only if they are equal; the prefixed key starts with [keyPrefix] and is
    as long as the prefix and the key together. *)
Theorem getKey_injective s (k1 k2 : string) :
  (getKey s k1 = getKey s k2 <-> k1 = k2) /\
  String.prefix (keyPrefix (currentConfig s)) (getKey s k1) = true /\
  String.length (getKey s k1)
  = (String.length (keyPrefix (currentConfig s)) + String.length k1)%nat.
Proof.
  unfold getKey. split; [split|split].
  - apply append_cancel_l.
  - intros ->. reflexivity.
  - apply prefix_append.
  - induction (keyPrefix (currentConfig s)) as [|c p IH]; simpl; [reflexivity|].
    now rewrite IH.
Qed.

(** X9.  [getData], [deleteData], [exists], [setTTL] and [getTTL] throw
    only when the store was available and their command threw; they throw
    that same error, after recording the failure. *)
Theorem operations_throw_only_store_errors s e s' t :
  (forall key parseJson,
     getData port key parseJson s = (Throw e, s', t) ->
     unavailable s = false /\
     exists s1, client_get port (getKey s key) s = (Throw e, s1) /\
                s' = recordFailure s1) /\
  (forall key,
     deleteData port key s = (Throw e, s', t) ->
     unavailable s = false /\
     exists s1, client_del port (getKey s key) s = (Throw e, s1) /\
                s' = recordFailure s1) /\
  (forall key,
     exists_ port key s = (Throw e, s', t) ->
     unavailable s = false /\
     exists s1, client_exists port (getKey s key) s = (Throw e, s1) /\
                s' = recordFailure s1) /\
  (forall key ttl,
     setTTL port key ttl s = (Throw e, s', t) ->
     unavailable s = false /\
     exists s1, client_expire port (getKey s key) ttl s = (Throw e, s1) /\
                s' = recordFailure s1) /\
  (forall key,
     getTTL port key s = (Throw e, s', t) ->
     unavailable s = false /\
     exists s1, client_ttl port (getKey s key) s = (Throw e, s1) /\
                s' = recordFailure s1).
Proof.
  destruct (unavailable s) eqn:Hu.
  - repeat apply conj; intros.
    + unfold getData in H. rewrite (gated_unavailable VNull) in H by exact Hu. discriminate.
    + unfold deleteData in H. rewrite (gated_unavailable 0) in H by exact Hu. discriminate.
    + unfold exists_ in H. rewrite (gated_unavailable false) in H by exact Hu. discriminate.
    + unfold setTTL in H. rewrite (gated_unavailable false) in H by exact Hu. discriminate.
    + unfold getTTL in H. rewrite (gated_unavailable (-2)) in H by exact Hu. discriminate.
  - repeat apply conj; intros.
    + rewrite getData_available in H by exact Hu. unfold command_result in H.
      destruct (client_get port (getKey s key) s) as [[r|e0] s1]; inversion H; subst.
      split; [reflexivity|]. eauto.
    + rewrite deleteData_available in H by exact Hu. unfold command_result in H.
      destruct (client_del port (getKey s key) s) as [[r|e0] s1]; inversion H; subst.
      split; [reflexivity|]. eauto.
    + rewrite exists_available in H by exact Hu. unfold command_result in H.
      destruct (client_exists port (getKey s key) s) as [[r|e0] s1]; inversion H; subst.
      split; [reflexivity|]. eauto.
    + rewrite setTTL_available in H by exact Hu. unfold command_result in H.
      destruct (client_expire port (getKey s key) ttl s) as [[r|e0] s1]; inversion H; subst.
      split; [reflexivity|]. eauto.
    + rewrite getTTL_available in H by exact Hu. unfold command_result in H.
      destruct (client_ttl port (getKey s key) s) as [[r|e0] s1]; inversion H; subst.
      split; [reflexivity|]. eauto.
Qed.

(** X10.  Whatever the store holds under the key, a [get] that succeeds
    makes [getData] succeed, with the state the store left: [null] for an
    absent key or an empty text; the text itself when [parseJson] is false or
    when it is not JSON; the parsed value otherwise. *)
Theorem getData_tolerates_any_reply s s1 key parseJson (reply : option string) :
  unavailable s = false ->
  client_get port (getKey s key) s = (Ok reply, s1) ->
  exists v,
    getData port key parseJson s = (Ok v, s1, [CallGet (getKey s key)]) /\
    (reply = None \/ reply = Some "" -> v = VNull) /\
    (forall raw, reply = Some raw -> raw <> "" ->
       (parseJson = false -> v = VStr raw) /\
       (forall e, JSON_parse raw = Throw e -> v = VStr raw) /\
       (forall w, parseJson = true -> JSON_parse raw = Ok w -> v = w)).
Proof.
  intros Hu Hg. exists (reply_value parseJson reply).
  split; [rewrite getData_available, Hg by exact Hu; reflexivity|].
  split.
  - intros [->| ->]; reflexivity.
  - intros raw -> Hne. unfold reply_value.
    destruct (String.eqb_spec raw ""); [contradiction|].
    unfold decode. repeat apply conj.
    + intros ->. reflexivity.
    + intros e0 He. rewrite He. now destruct parseJson.
    + intros w -> Hw. now rewrite Hw.
Qed.

(** X13.  Cache hit: when the store holds a non-empty text that does not
    decode to [null], [getOrSet] returns the decoded value after that one
    [get]; the handler is not run and nothing is written. *)
Theorem getOrSet_cache_hit s s1 key handler ttl parseJson (raw : string) :
  unavailable s = false ->
  client_get port (getKey s key) s = (Ok (Some raw), s1) ->
  raw <> "" ->
  is_null (decode raw parseJson) = false ->
  getOrSet port key handler ttl parseJson s
  = (Ok (decode raw parseJson), s1, [CallGet (getKey s key)]).
Proof.
  intros Hu Hg Hne Hnn.
  rewrite getOrSet_available, getData_available, Hg by exact Hu.
  unfold command_result, reply_value.
  destruct (String.eqb_spec raw ""); [contradiction|].
  rewrite Hnn. reflexivity.
Qed.

Lemma setData_write key v ttl s stringValue :
  unavailable s = false -> encode v = Ok stringValue ->
  setData port key v ttl s =
  command_result (write_call (getKey s key) (ttl_or_default ttl s) stringValue)
                 (fun u => u)
                 (write_command port (getKey s key) (ttl_or_default ttl s) stringValue s).
Proof.
  intros Hu He. rewrite setData_available, He by exact Hu. cbv zeta.
  unfold write_call, write_command.
  destruct (negb (ttl_or_default ttl s =? 0)); reflexivity.
Qed.

(** X14.  Cache miss: when the read finds nothing, the handler returns a
    value that is neither [null] nor [undefined] and the write succeeds,
    [getOrSet] returns that value after exactly three calls: the [get], one
    run of the handler, and one write of the encoded value, with the TTL
    resolved when [getOrSet] was entered. *)
Theorem getOrSet_miss_writes_through
    s s1 s2 s3 key handler ttl parseJson reply v stringValue :
  unavailable s = false ->
  client_get port (getKey s key) s = (Ok reply, s1) ->
  is_null (reply_value parseJson reply) = true ->
  handler s1 = (Ok v, s2) ->
  is_nullish v = false ->
  unavailable s2 = false ->
  encode v = Ok stringValue ->
  write_command port (getKey s2 key) (ttl_or_default ttl s) stringValue s2 = (Ok tt, s3) ->
  getOrSet port key handler ttl parseJson s
  = (Ok v, s3,
     [CallGet (getKey s key); CallHandler;
      write_call (getKey s2 key) (ttl_or_default ttl s) stringValue]).
Proof.
  intros Hu Hg Hnull Hh Hv Hu2 He Hw.
  rewrite getOrSet_available, getData_available, Hg by exact Hu.
  unfold command_result at 1. rewrite Hnull. cbn [negb].
  rewrite Hh, Hv.
  rewrite (setData_write key v (Some (ttl_or_default ttl s)) s2 stringValue Hu2 He).
  cbn [ttl_or_default]. rewrite Hw. reflexivity.
Qed.

(** X15.  On a miss, nothing is written when the handler returns [null]
    or [undefined], nor when the store has become unavailable while the
    handler ran; [getOrSet] returns the handler's value after one run. *)
Theorem getOrSet_miss_without_write
    s s1 s2 key handler ttl parseJson reply v :
  unavailable s = false ->
  client_get port (getKey s key) s = (Ok reply, s1) ->
  is_null (reply_value parseJson reply) = true ->
  handler s1 = (Ok v, s2) ->
  is_nullish v = true \/ unavailable s2 = true ->
  getOrSet port key handler ttl parseJson s
  = (Ok v, s2, [CallGet (getKey s key); CallHandler]).
Proof.
  intros Hu Hg Hnull Hh Hor.
  rewrite getOrSet_available, getData_available, Hg by exact Hu.
  unfold command_result at 1. rewrite Hnull. cbn [negb]. rewrite Hh.
  destruct (is_nullish v) eqn:Hv; [reflexivity|].
  destruct Hor as [Hor|Hu2]; [discriminate|].
  unfold setData. rewrite (gated_unavailable tt) by exact Hu2. reflexivity.
Qed.

(** X16.  When the read fails, the failure is recorded, the handler is
    run once on the resulting state and its outcome is the outcome of
    [getOrSet]; the value is not written back. *)
Theorem getOrSet_read_failure_falls_back
    s s1 key handler ttl parseJson e :
  unavailable s = false ->
  client_get port (getKey s key) s = (Throw e, s1) ->
  getOrSet port key handler ttl parseJson s
  = (fst (handler (recordFailure s1)), snd (handler (recordFailure s1)),
     [CallGet (getKey s key); CallHandler]).
Proof.
  intros Hu Hg.
  rewrite getOrSet_available, getData_available, Hg by exact Hu.
  unfold command_result. destruct (handler (recordFailure s1)) as [r s2].
  reflexivity.
Qed.

(** X17.  The only exceptions [getOrSet] raises are the handler's: if it
    throws [e], then its last run of the handler threw [e].  A store error
    never reaches the caller. *)
Theorem getOrSet_throws_only_handler_errors
    s s' key handler ttl parseJson e t :
  getOrSet port key handler ttl parseJson s = (Throw e, s', t) ->
  exists s0, handler s0 = (Throw e, s').
Proof.
  intros H. destruct (unavailable s) eqn:Hu.
  - rewrite getOrSet_unavailable in H by exact Hu.
    destruct (handler s) as [[v|e0] s1] eqn:Hh; [discriminate|].
    destruct (handler s1) as [r s2] eqn:Hh1. inversion H; subst. eauto.
  - rewrite getOrSet_available in H by exact Hu.
    destruct (getData port key parseJson s) as [[[cached|e0] s1] t1].
    + destruct (is_null cached); cbn [negb] in H; [|discriminate].
      destruct (handler s1) as [[fresh|e1] s2] eqn:Hh.
      * destruct (is_nullish fresh); [discriminate|].
        destruct (setData port key fresh (Some (ttl_or_default ttl s)) s2)
          as [[[u|e2] s3] t3]; [discriminate|].
        destruct (handler s3) as [r s4] eqn:Hh3. inversion H; subst. eauto.
      * destruct (handler s2) as [r s3] eqn:Hh2. inversion H; subst. eauto.
    + destruct (handler s1) as [r s2] eqn:Hh. inversion H; subst. eauto.
Qed.

(** X11.  [setData] sends at most one command, on the prefixed key and
    with the encoded value: [setEx] when the resolved TTL is not 0, [set]
    when it is 0. *)
Theorem setData_sends_one_command key v ttl s :
  let t := snd (setData port key v ttl s) in
  let seconds := ttl_or_default ttl s in
  t = [] \/
  exists stringValue,
    encode v = Ok stringValue /\
    ((seconds <> 0 /\ t = [CallSetEx (getKey s key) seconds stringValue]) \/
     (seconds = 0 /\ t = [CallSet (getKey s key) stringValue])).
Proof.
  cbv zeta. destruct (unavailable s) eqn:Hu.
  - left. unfold setData. rewrite (gated_unavailable tt) by exact Hu. reflexivity.
  - rewrite setData_available by exact Hu.
    destruct (encode v) as [sv|e]; [|left; reflexivity].
    right. exists sv. split; [reflexivity|]. cbv zeta.
    destruct (Z.eqb_spec (ttl_or_default ttl s) 0) as [Hz|Hz]; cbn [negb].
    + right. split; [exact Hz|]. unfold command_result.
      destruct (client_set port _ sv s) as [[u|e] s1]; reflexivity.
    + left. split; [exact Hz|]. unfold command_result.
      destruct (client_setEx port _ _ sv s) as [[u|e] s1]; reflexivity.
Qed.

(** X19.  [publish] sends at most one message: the encoded value, on the
    channel exactly as given (no key prefix). *)
Theorem publish_sends_one_message channel message s :
  let t := snd (publish port channel message s) in
  t = [] \/
  exists stringMessage,
    encode message = Ok stringMessage /\
    t = [CallPublish channel stringMessage].
Proof.
  cbv zeta. destruct (unavailable s) eqn:Hu.
  - left. unfold publish. rewrite (gated_unavailable tt) by exact Hu. reflexivity.
  - rewrite publish_available by exact Hu.
    destruct (redisPublisher s); [|left; reflexivity].
    destruct (encode message) as [sm|e]; [|left; reflexivity].
    right. exists sm. split; [reflexivity|]. unfold command_result.
    destruct (publisher_publish port channel sm s) as [[n|e] s1]; reflexivity.
Qed.

(** What one [setData] issues: nothing, or one command. *)
Lemma setData_trace key v ttl s :
  snd (setData port key v ttl s) = [] \/
  exists c, snd (setData port key v ttl s) = [c] /\ is_handler_call c = false.
Proof.
  destruct (unavailable s) eqn:Hu.
  - left. unfold setData. rewrite (gated_unavailable tt) by exact Hu. reflexivity.
  - rewrite setData_available by exact Hu.
    destruct (encode v) as [sv|e]; [|left; reflexivity].
    right. cbv zeta. unfold command_result.
    destruct (negb (ttl_or_default ttl s =? 0)).
    + destruct (client_setEx port _ _ sv s) as [[u|e] s1];
        eexists; split; reflexivity.
    + destruct (client_set port _ sv s) as [[u|e] s1];
        eexists; split; reflexivity.
Qed.

(** X18.  One [getOrSet] makes at least one call, runs the handler at
    most twice and sends the store at most two commands. *)
Theorem getOrSet_call_bounds key handler ttl parseJson s :
  let t := snd (getOrSet port key handler ttl parseJson s) in
  (1 <= handler_calls t + store_calls t)%nat /\
  (handler_calls t <= 2)%nat /\
  (store_calls t <= 2)%nat.
Proof.
  cbv zeta. destruct (unavailable s) eqn:Hu.
  - rewrite getOrSet_unavailable by exact Hu.
    destruct (handler s) as [[v|e] s1].
    + cbn. repeat split; lia.
    + destruct (handler s1) as [r s2]. cbn. repeat split; lia.
  - rewrite getOrSet_available, getData_available by exact Hu.
    unfold command_result.
    destruct (client_get port (getKey s key) s) as [[reply|e] s1].
    + destruct (is_null (reply_value parseJson reply)); cbn [negb].
      * destruct (handler s1) as [[fresh|e] s2].
        -- destruct (is_nullish fresh).
           ++ cbn. repeat split; lia.
           ++ pose proof (setData_trace key fresh
                            (Some (ttl_or_default ttl s)) s2) as Hs.
              destruct (setData port key fresh (Some (ttl_or_default ttl s)) s2)
                as [[[u|e] s3] t3]; cbn [snd] in Hs.
              ** destruct Hs as [->|(c & -> & Hc)];
                   cbn; unfold is_store_call; rewrite ?Hc; cbn; repeat split; lia.
              ** destruct (handler s3) as [r s4].
                 destruct Hs as [->|(c & -> & Hc)];
                   cbn; unfold is_store_call; rewrite ?Hc; cbn; repeat split; lia.
        -- destruct (handler s2) as [r s3]. cbn. repeat split; lia.
      * cbn. repeat split; lia.
    + destruct (handler (recordFailure s1)) as [r s2]. cbn.
      repeat split; lia.
Qed.

(** [initRedis], case by case. *)
Lemma initRedis_cases (u : UserConfig) s :
  let cfg := merge (currentConfig s) u in
  initRedis port u s =
  match createClient port cfg with
  | Throw _ => (Ok tt, openCircuit (set_currentConfig cfg s), [])
  | Ok c =>
      match connect_all port (prepared c cfg s) with
      | (Ok _, s2) => (Ok tt, s2, [CallConnect])
      | (Throw _, s2) => (Ok tt, openCircuit s2, [CallConnect])
      end
  end.
Proof.
  cbv zeta. unfold initRedis, try_catch, bind, modify, get_state, lift, await.
  cbn [currentConfig set_currentConfig].
  destruct (createClient port (merge (currentConfig s) u)) as [c|e]; [|reflexivity].
  cbn. unfold prepared, set_clients, set_currentConfig. cbn.
  destruct (connect_all port _) as [[[]|e] s2]; reflexivity.
Qed.

(** X5.  [initRedis] never throws, whatever [createClient] and the
    connection attempt do, and calls [connect] at most once. *)
Theorem initRedis_never_throws (u : UserConfig) s :
  exists s' t,
    initRedis port u s = (Ok tt, s', t) /\ (t = [] \/ t = [CallConnect]).
Proof.
  rewrite initRedis_cases. cbv zeta.
  destruct (createClient port _) as [c|e]; [|eauto].
  destruct (connect_all port _) as [[[]|e] s2]; eauto.
Qed.

Lemma open_unavailable s : isCircuitOpen s = true -> unavailable s = true.
Proof.
  intros Ho. unfold unavailable, isAvailable. rewrite Ho.
  destruct (redisClient s) as [c|]; [destruct (isReady c)|]; reflexivity.
Qed.

Lemma openCircuit_open s : isCircuitOpen (openCircuit s) = true.
Proof. unfold openCircuit. destruct (isCircuitOpen s) eqn:E; [exact E|reflexivity]. Qed.

(** X6.  When the connection attempt, made with the merged configuration
    and the new clients in place, fails, [initRedis] returns normally in the
    state the attempt left, with the circuit open and the configuration and
    the clients of that state untouched; and from then on [getData] returns
    [null] and [getOrSet] runs the handler, without contacting the store. *)
Theorem failed_initRedis_leaves_store_unavailable (u : UserConfig) s s2 c e :
  let cfg := merge (currentConfig s) u in
  createClient port cfg = Ok c ->
  connect_all port (prepared c cfg s) = (Throw e, s2) ->
  initRedis port u s = (Ok tt, openCircuit s2, [CallConnect]) /\
  (currentConfig (openCircuit s2) = currentConfig s2 /\
   redisClient (openCircuit s2) = redisClient s2 /\
   redisPublisher (openCircuit s2) = redisPublisher s2 /\
   redisSubscriber (openCircuit s2) = redisSubscriber s2) /\
  isCircuitOpen (openCircuit s2) = true /\
  (forall key parseJson,
     getData port key parseJson (openCircuit s2) = (Ok VNull, openCircuit s2, [])) /\
  (forall key handler ttl parseJson v s3,
     handler (openCircuit s2) = (Ok v, s3) ->
     getOrSet port key handler ttl parseJson (openCircuit s2)
     = (Ok v, s3, [CallHandler])).
Proof.
  intros cfg Hc Hcon.
  pose proof (openCircuit_open s2) as Ho.
  pose proof (open_unavailable _ Ho) as Hu.
  repeat apply conj.
  - rewrite initRedis_cases. cbv zeta. fold cfg. rewrite Hc, Hcon. reflexivity.
  - unfold openCircuit. destruct (isCircuitOpen s2); reflexivity.
  - unfold openCircuit. destruct (isCircuitOpen s2); reflexivity.
  - unfold openCircuit. destruct (isCircuitOpen s2); reflexivity.
  - unfold openCircuit. destruct (isCircuitOpen s2); reflexivity.
  - exact Ho.
  - intros. apply (gated_unavailable VNull). exact Hu.
  - intros key handler ttl pj v s3 Hh.
    rewrite getOrSet_unavailable, Hh by exact Hu. reflexivity.
Qed.

(** X7.  When [createClient] throws, [initRedis] connects nothing, opens
    the circuit, keeps the merged configuration and leaves the three client
    variables as they were. *)
Theorem initRedis_without_client (u : UserConfig) s e :
  let cfg := merge (currentConfig s) u in
  createClient port cfg = Throw e ->
  exists s',
    initRedis port u s = (Ok tt, s', []) /\
    isCircuitOpen s' = true /\
    currentConfig s' = cfg /\
    redisClient s' = redisClient s /\
    redisPublisher s' = redisPublisher s /\
    redisSubscriber s' = redisSubscriber s.
Proof.
  intros cfg Hc. exists (openCircuit (set_currentConfig cfg s)).
  split; [rewrite initRedis_cases; cbv zeta; fold cfg; rewrite Hc; reflexivity|].
  split; [apply openCircuit_open|].
  unfold openCircuit. cbn. destruct (isCircuitOpen s); repeat split.
Qed.

(** X21.  An exception escapes the listener registered by [subscribe]
    only from a call of the callback on the raw message: a callback that
    throws on the parsed message is called again with the raw text. *)
Theorem listener_throws_only_on_raw_delivery
    (callback : value -> Ext X unit) (message : string) s s' e :
  listener callback message s = (Throw e, s') ->
  exists s0, callback (VStr message) s0 = (Throw e, s').
Proof.
  unfold listener. intros H.
  destruct (JSON_parse message) as [v|e0]; [|eauto].
  destruct (callback v s) as [[u|e1] s1]; [discriminate|eauto].
Qed.


End MoreOperationProofs.

(** ** The concrete [JSON]: parsing inverts printing *)

Import MiniJSON.

Lemma append_assoc (a b c : string) : ((a ++ b) ++ c = a ++ (b ++ c))%string.
Proof. induction a as [|x a IH]; simpl; [reflexivity|]. now rewrite IH. Qed.

Lemma append_nil_r (a : string) : (a ++ "")%string = a.
Proof. induction a as [|x a IH]; simpl; [reflexivity|]. now rewrite IH. Qed.

Lemma parse_escape_char (c : ascii) (r : string) :
  parse_string_body (escape_char c ++ r) =
  match parse_string_body r with
  | Some (body, rest) => Some (String c body, rest)
  | None => None
  end.
Proof.
  destruct c as [[] [] [] [] [] [] [] []]; reflexivity.
Qed.

(** In a string without a lone surrogate every character is written on
    its own. *)
Lemma escape_cons (c : ascii) (r : string) :
  no_surrogate (String c r) = true ->
  escape (String c r) = (escape_char c ++ escape r)%string /\
  no_surrogate r = true.
Proof.
  destruct r as [|b1 [|b2 r2]]; cbn [escape no_surrogate];
    try (intros H; split; [reflexivity|exact H]).
  destruct (surrogate_code c b1 b2); [discriminate|].
  intros H; split; [reflexivity|exact H].
Qed.

Lemma parse_escape (s rest : string) :
  no_surrogate s = true ->
  parse_string_body (escape s ++ String dquote rest) = Some (s, rest).
Proof.
  induction s as [|c s IH]; intros Hs; [reflexivity|].
  destruct (escape_cons c s Hs) as [E Hs1]. rewrite E.
  rewrite append_assoc, parse_escape_char, IH by exact Hs1. reflexivity.
Qed.

Lemma delimited_cases rest :
  delimited rest = true ->
  rest = "" \/ exists c t, rest = String c t /\ (c = "," \/ c = "]" \/ c = "}")%char.
Proof.
  destruct rest as [|c t]; [now left|]. simpl. intros H. right. exists c, t.
  split; [reflexivity|].
  apply orb_true_iff in H. destruct H as [H|H].
  - apply orb_true_iff in H. destruct H as [H|H]; apply Ascii.eqb_eq in H; auto.
  - apply Ascii.eqb_eq in H. auto.
Qed.

Lemma digits_cons (c : ascii) (r : string) (acc k : Z) :
  digit_val c = Some k -> digits (String c r) acc = digits r (10 * acc + k).
Proof. intros H. cbn [digits]. now rewrite H. Qed.

Lemma digits_uint (d : Decimal.uint) (rest : string) (acc : Z) :
  delimited rest = true ->
  digits (NilEmpty.string_of_uint d ++ rest) acc = (uval d acc, rest).
Proof.
  intros Hr. revert acc.
  induction d; intros acc; cbn [NilEmpty.string_of_uint uval append];
    try (erewrite digits_cons by reflexivity; rewrite ?Z.add_0_r; apply IHd).
  destruct (delimited_cases rest Hr) as [E|(c & t & E & [Ec|[Ec|Ec]])];
    subst; reflexivity.
Qed.

(** The digits of a positive number denote it. *)
Lemma uval_acc (d : Decimal.uint) (acc : positive) :
  uval d (Z.pos acc) = Z.pos (Pos.of_uint_acc d acc).
Proof.
  revert acc. induction d; intros acc; cbn [uval Pos.of_uint_acc];
    try reflexivity;
    match goal with
    | |- uval _ ?a = Z.pos (Pos.of_uint_acc _ ?b) =>
        replace a with (Z.pos b) by lia; apply IHd
    end.
Qed.

Lemma uval_of_uint (d : Decimal.uint) : uval d 0 = Z.of_N (Pos.of_uint d).
Proof.
  induction d; cbn [uval Pos.of_uint]; try reflexivity;
    try (exact IHd);
    match goal with
    | |- uval _ ?a = _ => let p := eval vm_compute in a in
                          change a with p; apply uval_acc
    end.
Qed.

Lemma uval_to_uint (p : positive) : uval (Pos.to_uint p) 0 = Z.pos p.
Proof. rewrite uval_of_uint, DecimalPos.Unsigned.of_to. reflexivity. Qed.

(** A normalised digit sequence is [0] or starts with a non-zero digit. *)
Lemma unorm_head (d : Decimal.uint) :
  match Decimal.unorm d with
  | Decimal.Nil => False
  | Decimal.D0 Decimal.Nil => True
  | Decimal.D0 _ => False
  | _ => True
  end.
Proof. induction d; simpl; auto. Qed.

Lemma to_uint_head (p : positive) :
  match Pos.to_uint p with
  | Decimal.Nil | Decimal.D0 _ => False
  | _ => True
  end.
Proof.
  pose proof (unorm_head (Pos.to_uint p)) as H.
  pose proof (DecimalPos.Unsigned.to_of (Pos.to_uint p)) as E.
  rewrite DecimalPos.Unsigned.of_to in E. simpl in E. rewrite <- E in H.
  pose proof (DecimalPos.Unsigned.to_uint_nonzero p) as Hz.
  destruct (Pos.to_uint p) as [|l| | | | | | | | |]; auto.
  destruct l; auto; exfalso; apply Hz; reflexivity.
Qed.

Lemma parse_nat_to_uint (p : positive) (rest : string) :
  delimited rest = true ->
  parse_nat (NilEmpty.string_of_uint (Pos.to_uint p) ++ rest) = Some (Z.pos p, rest).
Proof.
  intros Hr. pose proof (to_uint_head p) as Hh.
  pose proof (uval_to_uint p) as Hv.
  destruct (Pos.to_uint p) as [|l|l|l|l|l|l|l|l|l|l]; try contradiction;
    cbn [NilEmpty.string_of_uint append parse_nat];
    match goal with
    | |- context [digit_val ?c] =>
        let k := eval vm_compute in (digit_val c) in change (digit_val c) with k
    end; cbv iota beta;
    rewrite digits_uint by exact Hr; cbn [uval] in Hv;
    rewrite Z.mul_0_r, Z.add_0_l in Hv; rewrite Hv; reflexivity.
Qed.

(** No fraction and no exponent starts where a value may end. *)
Lemma delimited_not_fraction rest (i : Z) :
  delimited rest = true ->
  parse_fraction i rest = Some (i, 0, rest) /\
  parse_exponent rest = Some (0, rest).
Proof.
  intros H. destruct (delimited_cases rest H) as [E|(c & t & E & [Ec|[Ec|Ec]])];
    subst; split; reflexivity.
Qed.

Lemma to_number_small (negative : bool) (p : positive) :
  Z.pos p <= 2 ^ 53 ->
  to_number negative (Z.pos p) (0 - 0)
  = VNum (if negative then Z.neg p else Z.pos p).
Proof.
  intros H. unfold to_number. change (0 - 0) with 0.
  change (Z.pos p =? 0) with false. cbv iota.
  rewrite Z.pow_0_r, Z.mul_1_r.
  apply Z.leb_le in H. rewrite H. destruct negative; reflexivity.
Qed.

Lemma to_uint_string_head (p : positive) (rest : string) :
  exists c t,
    (NilEmpty.string_of_uint (Pos.to_uint p) ++ rest)%string = String c t /\
    Ascii.eqb c "-" = false /\ number_head c = true.
Proof.
  pose proof (to_uint_head p) as Hh.
  destruct (Pos.to_uint p); try contradiction;
    cbn [NilEmpty.string_of_uint append]; eexists _, _; repeat split.
Qed.

Lemma text_small (n : Z) :
  Z.abs n <= 2 ^ 53 -> text (VNum n) = NilZero.string_of_int (Z.to_int n).
Proof. intros H. cbn [text]. apply Z.leb_le in H. now rewrite H. Qed.

Lemma parse_number_plus (c : ascii) (t : string) :
  Ascii.eqb c "-" = false ->
  parse_number (String c t) = parse_unsigned false (String c t).
Proof. intros H. unfold parse_number. rewrite H. reflexivity. Qed.

Lemma parse_number_minus (t : string) :
  parse_number (String "-" t) = parse_unsigned true t.
Proof. reflexivity. Qed.

Lemma parse_unsigned_pos (negative : bool) (p : positive) (rest : string) :
  Z.pos p <= 2 ^ 53 -> delimited rest = true ->
  parse_unsigned negative (NilEmpty.string_of_uint (Pos.to_uint p) ++ rest)
  = Some (VNum (if negative then Z.neg p else Z.pos p), rest).
Proof.
  intros Hn Hr. unfold parse_unsigned.
  destruct (delimited_not_fraction rest (Z.pos p) Hr) as [Hf He].
  rewrite parse_nat_to_uint by exact Hr. rewrite Hf, He.
  rewrite to_number_small by exact Hn. reflexivity.
Qed.

Lemma parse_number_text (n : Z) (rest : string) :
  Z.abs n <= 2 ^ 53 -> delimited rest = true ->
  parse_number (text (VNum n) ++ rest) = Some (VNum n, rest).
Proof.
  intros Hn Hr. rewrite text_small by exact Hn.
  destruct n as [|p|p]; cbn [Z.to_int NilZero.string_of_int].
  - destruct (delimited_not_fraction rest 0 Hr) as [Hf He].
    change (NilZero.string_of_uint (Decimal.D0 Decimal.Nil)) with "0".
    change (parse_number ("0" ++ rest))
      with (parse_unsigned false (String "0" rest)).
    unfold parse_unsigned.
    change (parse_nat (String "0" rest)) with (Some (0, rest)).
    cbv iota. rewrite Hf, He. reflexivity.
  - pose proof (DecimalPos.Unsigned.to_uint_nonnil p) as Hnn.
    assert (E : NilZero.string_of_uint (Pos.to_uint p)
                = NilEmpty.string_of_uint (Pos.to_uint p)).
    { destruct (Pos.to_uint p); [contradiction|reflexivity..]. }
    rewrite E.
    destruct (to_uint_string_head p rest) as (c & t & Es & Hc & _).
    rewrite Es, parse_number_plus, <- Es by exact Hc.
    apply (parse_unsigned_pos false); assumption.
  - pose proof (DecimalPos.Unsigned.to_uint_nonnil p) as Hnn.
    assert (E : NilZero.string_of_uint (Pos.to_uint p)
                = NilEmpty.string_of_uint (Pos.to_uint p)).
    { destruct (Pos.to_uint p); [contradiction|reflexivity..]. }
    rewrite E. cbn [append]. rewrite parse_number_minus.
    apply (parse_unsigned_pos true); assumption.
Qed.

Lemma number_text_head (n : Z) (rest : string) :
  Z.abs n <= 2 ^ 53 ->
  exists c t, (text (VNum n) ++ rest)%string = String c t /\ number_head c = true.
Proof.
  intros Hn. rewrite text_small by exact Hn.
  destruct n as [|p|p]; cbn [Z.to_int NilZero.string_of_int].
  - eexists _, _. split; reflexivity.
  - pose proof (DecimalPos.Unsigned.to_uint_nonnil p) as Hnn.
    destruct (to_uint_string_head p rest) as (c & t & Es & _ & Hc).
    exists c, t. split; [|exact Hc]. rewrite <- Es.
    destruct (Pos.to_uint p); [contradiction|reflexivity..].
  - eexists _, _. split; reflexivity.
Qed.

Lemma value_head_facts (c : ascii) :
  value_head c = true ->
  is_ws c = false /\ Ascii.eqb c "]" = false /\ Ascii.eqb c "}" = false /\
  Ascii.eqb c "," = false /\ Ascii.eqb c ":" = false.
Proof.
  destruct c as [[] [] [] [] [] [] [] []]; vm_compute; intros H;
    first [discriminate H | repeat split].
Qed.

Lemma number_head_facts (c : ascii) :
  number_head c = true ->
  value_head c = true /\
  Ascii.eqb c "n" = false /\ Ascii.eqb c "t" = false /\ Ascii.eqb c "f" = false /\
  Ascii.eqb c dquote = false /\ Ascii.eqb c "[" = false /\ Ascii.eqb c "{" = false.
Proof.
  destruct c as [[] [] [] [] [] [] [] []]; vm_compute; intros H;
    first [discriminate H | repeat split].
Qed.

Lemma text_head (v : value) :
  simple v = true ->
  exists c t, text v = String c t /\ value_head c = true.
Proof.
  intros Hj.
  destruct v as [| |[]|n|x|s|l|f]; try discriminate Hj;
    try (eexists _, _; split; reflexivity).
  cbn [simple] in Hj. apply Z.leb_le in Hj.
  destruct (number_text_head n "" Hj) as (c & t & E & Hc).
  rewrite append_nil_r in E. exists c, t. split; [exact E|].
  now apply number_head_facts.
Qed.

Lemma skip_ws_head (c : ascii) (t : string) :
  is_ws c = false -> skip_ws (String c t) = String c t.
Proof. intros H. cbn [skip_ws]. now rewrite H. Qed.

(** Induction on values, with the hypothesis available for every item of an
    array and every field of an object. *)
Lemma value_nested_ind (P : value -> Prop) :
  P VUndefined -> P VNull -> (forall b, P (VBool b)) ->
  (forall n, P (VNum n)) -> (forall x, P (VFloat x)) -> (forall s, P (VStr s)) ->
  (forall items, Forall P items -> P (VArr items)) ->
  (forall fields, Forall (fun kv => P (snd kv)) fields -> P (VObj fields)) ->
  forall v, P v.
Proof.
  intros Hu Hn Hb Hz Hx Hs Ha Ho.
  fix IH 1.
  intros [| |b|n|x|s|items|fields];
    [exact Hu|exact Hn|apply Hb|apply Hz|apply Hx|apply Hs| |].
  - apply Ha. induction items as [|x r IHr]; constructor; [apply IH|exact IHr].
  - apply Ho. induction fields as [|[k x] r IHr]; constructor; [apply IH|exact IHr].
Qed.

Lemma parse_value_head (fuel : nat) (c : ascii) (t : string) :
  is_ws c = false ->
  parse_value (S fuel) (String c t) =
  if Ascii.eqb c "n" then option_map (pair VNull) (strip_prefix "ull" t)
  else if Ascii.eqb c "t" then option_map (pair (VBool true)) (strip_prefix "rue" t)
  else if Ascii.eqb c "f" then option_map (pair (VBool false)) (strip_prefix "alse" t)
  else if Ascii.eqb c dquote then
    match parse_string_body t with
    | Some (body, rest) => Some (VStr body, rest)
    | None => None
    end
  else if Ascii.eqb c "[" then
    match skip_ws t with
    | String c1 rest =>
        if Ascii.eqb c1 "]" then Some (VArr [], rest)
        else
          match parse_elems fuel t with
          | Some (l, rest1) => Some (VArr l, rest1)
          | None => None
          end
    | "" => None
    end
  else if Ascii.eqb c "{" then
    match skip_ws t with
    | String c1 rest =>
        if Ascii.eqb c1 "}" then Some (VObj [], rest)
        else
          match parse_members fuel t with
          | Some (l, rest1) => Some (VObj (obj_of_members l), rest1)
          | None => None
          end
    | "" => None
    end
  else parse_number (String c t).
Proof.
  intros H. cbn [parse_value]. rewrite (skip_ws_head c t H). reflexivity.
Qed.

Lemma reads_back_scalar (v : value) :
  match v with VArr _ | VObj _ => False | _ => True end -> reads_back v.
Proof.
  intros Hv Hj fuel rest Hf Hr.
  destruct fuel as [|fuel]; [destruct v; simpl in Hf; lia|].
  destruct v as [| |[]|n|x|s|l|f]; try contradiction; try discriminate Hj;
    try reflexivity.
  - cbn [simple] in Hj. apply Z.leb_le in Hj.
    destruct (number_text_head n rest Hj) as (c & t & E & Hc).
    destruct (number_head_facts c Hc) as (Hv1 & H1 & H2 & H3 & H4 & H5 & H6).
    destruct (value_head_facts c Hv1) as (Hws & _).
    rewrite E, parse_value_head by exact Hws.
    rewrite H1, H2, H3, H4, H5, H6, <- E.
    apply parse_number_text; assumption.
  - cbn [simple] in Hj.
    cbn [text quote append]. rewrite parse_value_head by reflexivity.
    change (Ascii.eqb dquote "n") with false.
    change (Ascii.eqb dquote "t") with false.
    change (Ascii.eqb dquote "f") with false.
    change (Ascii.eqb dquote dquote) with true. cbv iota.
    rewrite append_assoc. cbn [append]. rewrite parse_escape by exact Hj.
    reflexivity.
Qed.

Lemma text_arr (l : list value) : text (VArr l) = ("[" ++ elems l ++ "]")%string.
Proof. reflexivity. Qed.

Lemma text_obj (f : list (string * value)) :
  text (VObj f) = ("{" ++ members true f ++ "}")%string.
Proof. reflexivity. Qed.

Lemma need_arr (l : list value) : need (VArr l) = S (items_need l).
Proof. reflexivity. Qed.

Lemma need_obj (f : list (string * value)) : need (VObj f) = S (fields_need f).
Proof. reflexivity. Qed.

Lemma elems_cons (x : value) (r : list value) (tail : string) :
  (elems (x :: r) ++ String "]" tail)%string =
  (text x ++ match r with
             | [] => String "]" tail
             | _ => String "," (elems r ++ String "]" tail)
             end)%string.
Proof.
  cbn [elems]. rewrite append_assoc. destruct r; reflexivity.
Qed.

Lemma parse_elems_text (l : list value) :
  Forall reads_back l -> forallb simple l = true -> l <> [] ->
  forall fuel rest,
    (items_need l <= fuel)%nat ->
    parse_elems fuel (elems l ++ String "]" rest) = Some (l, rest).
Proof.
  induction 1 as [|x r Hx Hr IH]; intros Hj Hne fuel rest Hf; [congruence|].
  cbn [forallb] in Hj. apply andb_true_iff in Hj. destruct Hj as [Hjx Hjr].
  cbn [items_need] in Hf. destruct fuel as [|fuel]; [lia|].
  rewrite elems_cons. cbn [parse_elems].
  destruct r as [|y r1].
  - rewrite (Hx Hjx fuel (String "]" rest)) by (try reflexivity; lia).
    reflexivity.
  - rewrite (Hx Hjx fuel (String "," (elems (y :: r1) ++ String "]" rest)))
      by (try reflexivity; lia).
    rewrite skip_ws_head by reflexivity.
    change (Ascii.eqb "," ",") with true. cbv iota.
    rewrite IH; [reflexivity|exact Hjr|discriminate|lia].
Qed.

Lemma elems_head (x : value) (r : list value) (tail : string) :
  simple x = true ->
  exists c t, (elems (x :: r) ++ tail)%string = String c t /\ value_head c = true.
Proof.
  intros Hx. destruct (text_head x Hx) as (c & t & E & Hc).
  cbn [elems]. rewrite E. cbn [append]. eauto.
Qed.

Lemma reads_back_arr (l : list value) :
  Forall reads_back l -> reads_back (VArr l).
Proof.
  intros Hl Hj fuel rest Hf Hr. rewrite need_arr in Hf.
  destruct fuel as [|fuel]; [lia|].
  rewrite text_arr. cbn [append]. rewrite append_assoc. cbn [append].
  rewrite parse_value_head by reflexivity.
  change (Ascii.eqb "[" "n") with false. change (Ascii.eqb "[" "t") with false.
  change (Ascii.eqb "[" "f") with false. change (Ascii.eqb "[" dquote) with false.
  change (Ascii.eqb "[" "[") with true. cbv iota.
  destruct l as [|x r]; [reflexivity|].
  assert (Hx : simple x = true).
  { cbn [simple forallb] in Hj. apply andb_true_iff in Hj. tauto. }
  destruct (elems_head x r (String "]" rest) Hx) as (c & t & E & Hc).
  destruct (value_head_facts c Hc) as (Hws & Hb & _).
  rewrite E at 1. rewrite skip_ws_head, Hb by exact Hws.
  rewrite parse_elems_text; [reflexivity|exact Hl|exact Hj|discriminate|lia].
Qed.

Lemma simple_field_cons (k : string) (x : value) (r : list (string * value)) :
  forallb simple_field ((k, x) :: r) = true ->
  no_surrogate k = true /\ simple x = true /\ forallb simple_field r = true.
Proof.
  cbn [forallb]. unfold simple_field at 1. cbn [fst snd]. intros H.
  apply andb_true_iff in H. destruct H as [H Hr].
  apply andb_true_iff in H. tauto.
Qed.

Lemma members_cons (first : bool) (k : string) (x : value)
    (r : list (string * value)) :
  simple x = true ->
  members first ((k, x) :: r)
  = ((if first then "" else ",") ++ quote k ++ ":" ++ text x ++ members false r)%string.
Proof. destruct x; intros H; try discriminate H; reflexivity. Qed.

Lemma members_false (f : list (string * value)) :
  forallb simple_field f = true -> f <> [] ->
  members false f = String "," (members true f).
Proof.
  destruct f as [|[k x] r]; intros Hj Hne; [congruence|].
  destruct (simple_field_cons k x r Hj) as (_ & Hx & _).
  rewrite !members_cons by exact Hx. reflexivity.
Qed.

Lemma members_tail (r : list (string * value)) (rest : string) :
  forallb simple_field r = true ->
  (members false r ++ String "}" rest)%string =
  match r with
  | [] => String "}" rest
  | _ => String "," (members true r ++ String "}" rest)
  end.
Proof.
  intros Hj. destruct r as [|kx r1]; [reflexivity|].
  rewrite members_false by (try exact Hj; discriminate). reflexivity.
Qed.

Lemma parse_members_text (f : list (string * value)) :
  Forall (fun kv => reads_back (snd kv)) f ->
  forallb simple_field f = true -> f <> [] ->
  forall fuel rest,
    (fields_need f <= fuel)%nat ->
    parse_members fuel (members true f ++ String "}" rest) = Some (f, rest).
Proof.
  induction 1 as [|[k x] r Hx Hr IH]; intros Hj Hne fuel rest Hf; [congruence|].
  destruct (simple_field_cons k x r Hj) as (Hk & Hjx & Hjr).
  cbn [fields_need snd] in Hf. cbn [snd] in Hx.
  destruct fuel as [|fuel]; [lia|].
  rewrite members_cons by exact Hjx.
  cbn [append quote]. rewrite !append_assoc. cbn [append].
  cbn [parse_members]. rewrite skip_ws_head by reflexivity.
  change (Ascii.eqb dquote dquote) with true. cbv iota.
  rewrite parse_escape by exact Hk. rewrite skip_ws_head by reflexivity.
  change (Ascii.eqb ":" ":") with true. cbv iota.
  rewrite append_assoc, members_tail by exact Hjr.
  destruct r as [|kx r1].
  - rewrite (Hx Hjx fuel (String "}" rest)) by (try reflexivity; lia).
    reflexivity.
  - rewrite (Hx Hjx fuel (String "," (members true (kx :: r1) ++ String "}" rest)))
      by (try reflexivity; lia).
    rewrite skip_ws_head by reflexivity.
    change (Ascii.eqb "," ",") with true. cbv iota.
    rewrite IH; [reflexivity|exact Hjr|discriminate|lia].
Qed.

Lemma members_head (k : string) (x : value) (r : list (string * value))
    (tail : string) :
  simple x = true ->
  exists t, (members true ((k, x) :: r) ++ tail)%string = String dquote t.
Proof.
  intros Hx. rewrite members_cons by exact Hx. cbn [append quote]. eauto.
Qed.

(** The order of keys is transitive. *)
Lemma goes_before_trans (a b c : string) :
  goes_before b a = false -> goes_before c b = false -> goes_before c a = false.
Proof.
  unfold goes_before.
  destruct (array_index a), (array_index b), (array_index c);
    try discriminate; try reflexivity.
  intros H1 H2. apply Z.ltb_ge in H1, H2. apply Z.ltb_ge. lia.
Qed.

Lemma key_ordered_tail (a : string) (l : list string) :
  key_ordered (a :: l) = true -> key_ordered l = true.
Proof.
  destruct l as [|b l]; [reflexivity|]. cbn [key_ordered]. intros H.
  apply andb_true_iff in H. tauto.
Qed.

Lemma key_ordered_head (l : list string) :
  forall a b, key_ordered (a :: l) = true -> In b l -> goes_before b a = false.
Proof.
  induction l as [|b0 l IH]; intros a b Ho Hin; [contradiction|].
  pose proof Ho as Hab. cbn [key_ordered] in Hab.
  apply andb_true_iff in Hab. destruct Hab as [Hab Ht].
  apply negb_true_iff in Hab.
  destruct Hin as [->|Hin]; [exact Hab|].
  apply (goes_before_trans a b0 b Hab). apply IH; assumption.
Qed.

Lemma key_ordered_app (acc : list string) (k : string) (later : list string) :
  key_ordered (acc ++ k :: later) = true ->
  forall k1, In k1 acc -> goes_before k k1 = false.
Proof.
  induction acc as [|a acc IH]; intros Ho k1 Hin; [contradiction|].
  cbn [app] in Ho. destruct Hin as [->|Hin].
  - apply (key_ordered_head _ _ _ Ho). apply in_or_app. right. now left.
  - apply IH; [|exact Hin]. exact (key_ordered_tail _ _ Ho).
Qed.

Lemma obj_set_fresh (k : string) (v : value) (acc : list (string * value))
    (later : list string) :
  distinct (map fst acc ++ k :: later) = true ->
  key_ordered (map fst acc ++ k :: later) = true ->
  obj_set k v acc = acc ++ [(k, v)].
Proof.
  induction acc as [|[k1 v1] acc IH]; intros Hd Ho; [reflexivity|].
  pose proof (key_ordered_app _ _ _ Ho k1 (or_introl eq_refl)) as Hb.
  cbn [map fst app] in Ho. apply key_ordered_tail in Ho.
  cbn [map fst app distinct] in Hd. apply andb_true_iff in Hd.
  destruct Hd as [Hk Hd]. apply negb_true_iff in Hk.
  rewrite existsb_app in Hk. apply orb_false_iff in Hk. destruct Hk as [_ Hk].
  cbn [existsb] in Hk. apply orb_false_iff in Hk. destruct Hk as [Hk _].
  cbn [obj_set]. rewrite Hk, Hb, IH by assumption. reflexivity.
Qed.

Lemma obj_of_members_distinct (l acc : list (string * value)) :
  distinct (map fst acc ++ map fst l) = true ->
  key_ordered (map fst acc ++ map fst l) = true ->
  fold_left (fun a kv => obj_set (fst kv) (snd kv) a) l acc = acc ++ l.
Proof.
  revert acc. induction l as [|[k v] r IH]; intros acc Hd Ho.
  - symmetry. apply app_nil_r.
  - cbn [fold_left fst snd map] in *.
    rewrite (obj_set_fresh k v acc (map fst r)) by assumption.
    rewrite IH.
    + rewrite <- app_assoc. reflexivity.
    + rewrite map_app. cbn [map fst]. rewrite <- app_assoc. exact Hd.
    + rewrite map_app. cbn [map fst]. rewrite <- app_assoc. exact Ho.
Qed.

Lemma simple_obj (f : list (string * value)) :
  simple (VObj f) = true ->
  distinct (map fst f) = true /\ key_ordered (map fst f) = true /\
  forallb simple_field f = true.
Proof.
  cbn [simple]. intros H. apply andb_true_iff in H. destruct H as [H Hf].
  apply andb_true_iff in H. destruct H as [Hd Ho]. repeat split; assumption.
Qed.

Lemma reads_back_obj (f : list (string * value)) :
  Forall (fun kv => reads_back (snd kv)) f -> reads_back (VObj f).
Proof.
  intros Hl Hj fuel rest Hf Hr. rewrite need_obj in Hf.
  destruct (simple_obj f Hj) as (Hd & Ho & Hs).
  destruct fuel as [|fuel]; [lia|].
  rewrite text_obj. cbn [append]. rewrite append_assoc. cbn [append].
  rewrite parse_value_head by reflexivity.
  change (Ascii.eqb "{" "n") with false. change (Ascii.eqb "{" "t") with false.
  change (Ascii.eqb "{" "f") with false. change (Ascii.eqb "{" dquote) with false.
  change (Ascii.eqb "{" "[") with false. change (Ascii.eqb "{" "{") with true.
  cbv iota.
  destruct f as [|[k x] r]; [reflexivity|].
  destruct (simple_field_cons k x r Hs) as (_ & Hx & _).
  destruct (members_head k x r (String "}" rest) Hx) as (t & E).
  rewrite E at 1. rewrite skip_ws_head by reflexivity.
  change (Ascii.eqb dquote "}") with false. cbv iota.
  rewrite parse_members_text; [|exact Hl|exact Hs|discriminate|lia].
  unfold obj_of_members. rewrite obj_of_members_distinct by assumption.
  reflexivity.
Qed.

(** Every simple value is read back from its text. *)
Lemma parse_value_text (v : value) : reads_back v.
Proof.
  induction v using value_nested_ind;
    try (apply reads_back_scalar; exact I).
  - now apply reads_back_arr.
  - now apply reads_back_obj.
Qed.

Lemma length_append (a b : string) :
  String.length (a ++ b) = (String.length a + String.length b)%nat.
Proof. induction a as [|c a IH]; simpl; [reflexivity|]. now rewrite IH. Qed.

Lemma items_need_bound (l : list value) :
  Forall fuel_bound l -> forallb simple l = true ->
  (items_need l <= 2 + String.length (elems l))%nat.
Proof.
  induction 1 as [|x r Hx Hr IH]; intros Hj; [simpl; lia|].
  cbn [forallb] in Hj. apply andb_true_iff in Hj. destruct Hj as [Hjx Hjr].
  specialize (Hx Hjx). specialize (IH Hjr).
  cbn [items_need elems]. rewrite length_append.
  destruct r as [|y r1]; [simpl in *; lia|].
  rewrite length_append. cbn [String.length]. lia.
Qed.

Lemma quote_length (k : string) : (2 <= String.length (quote k))%nat.
Proof. unfold quote. cbn [String.length]. rewrite length_append. simpl. lia. Qed.

Lemma fields_need_bound (f : list (string * value)) (first : bool) :
  Forall (fun kv => fuel_bound (snd kv)) f ->
  forallb simple_field f = true ->
  (fields_need f <= 2 + String.length (members first f))%nat.
Proof.
  intros Hf. revert first.
  induction Hf as [|[k x] r Hx Hr IH]; intros first Hj; [simpl; lia|].
  destruct (simple_field_cons k x r Hj) as (_ & Hjx & Hjr).
  cbn [snd] in Hx. specialize (Hx Hjx). specialize (IH false Hjr).
  rewrite members_cons by exact Hjx. cbn [fields_need snd].
  rewrite !length_append. pose proof (quote_length k). cbn [String.length]. lia.
Qed.

Lemma need_bound (v : value) : fuel_bound v.
Proof.
  induction v using value_nested_ind; intros Hj; try (cbn [need]; lia).
  - rewrite need_arr, text_arr. cbn [append String.length].
    rewrite length_append. cbn [String.length].
    pose proof (items_need_bound items H Hj). lia.
  - destruct (simple_obj fields Hj) as (_ & _ & Hs).
    rewrite need_obj, text_obj. cbn [append String.length].
    rewrite length_append. cbn [String.length].
    pose proof (fields_need_bound fields true H Hs). lia.
Qed.

(** [JSON.parse(JSON.stringify(v))] is [v] for every simple value. *)
Theorem parse_text (v : value) : simple v = true -> parse (text v) = Ok v.
Proof.
  intros Hj. unfold parse.
  pose proof (parse_value_text v Hj (S (String.length (text v))) ""
                (need_bound v Hj) eq_refl) as H.
  rewrite append_nil_r in H. rewrite H. reflexivity.
Qed.

(** ** The codec: round trips through the store and through a channel *)

Section CodecProofs.

Context {X : Type} {J : JSON} (port : Port X).

Lemma storable_decode (v : value) (raw : string) :
  storable v -> encode v = Ok (Some raw) -> decode raw true = v.
Proof.
  intros Hs He. unfold decode.
  destruct v as [| |b|n|x|str|l|f]; cbn [storable encode] in Hs, He;
    try (destruct Hs as (t & H1 & H2); rewrite H1 in He; inversion He; subst t;
         now rewrite H2).
  destruct Hs as [e Hs]. inversion He; subst raw. now rewrite Hs.
Qed.



(** X12.  [setData] then [getData]: for a storable value whose text is not
    empty, if the write succeeds and the store then returns the text it was
    given, [getData] returns the value that was set, after one write and
    one read. *)
Theorem setData_then_getData
    (key : string) (v : value) (ttl : option Z) (raw : string)
    (s s1 s2 : State X) :
  storable v ->
  encode v = Ok (Some raw) -> raw <> "" ->
  unavailable s = false ->
  write_command port (getKey s key) (ttl_or_default ttl s) (Some raw) s = (Ok tt, s1) ->
  unavailable s1 = false ->
  client_get port (getKey s1 key) s1 = (Ok (Some raw), s2) ->
  (setData port key v ttl ;; getData port key true)%js s
  = (Ok v, s2,
     [write_call (getKey s key) (ttl_or_default ttl s) (Some raw);
      CallGet (getKey s1 key)]).
Proof.
  intros Hp He Hr Hu Hw Hu1 Hg. unfold bind.
  rewrite (setData_write port key v ttl s (Some raw) Hu He), Hw.
  cbn [command_result].
  rewrite getData_available, Hg by exact Hu1. cbn [command_result reply_value].
  destruct (String.eqb_spec raw ""); [contradiction|].
  rewrite (storable_decode v raw Hp He). reflexivity.
Qed.

(** X20.  A message that is [publish]'s encoding of a storable value is
    handed to the subscriber's callback as that same value. *)
Theorem published_value_is_delivered
    (callback : value -> Ext X unit) (v : value) (raw : string)
    (s s1 : State X) (u : unit) :
  storable v ->
  encode v = Ok (Some raw) ->
  callback v s = (Ok u, s1) ->
  listener callback raw s = (Ok u, s1).
Proof.
  intros Hp He Hc. pose proof (storable_decode v raw Hp He) as Hd.
  unfold decode in Hd. unfold listener.
  destruct (JSON_parse raw) as [w|e0].
  - subst w. now rewrite Hc.
  - subst v. exact Hc.
Qed.

End CodecProofs.

#[local] Existing Instance MiniJSON.json.

(** With the concrete [JSON], every simple value other than a string that
    is JSON text is storable. *)
Lemma simple_storable (v : value) :
  simple v = true ->
  (forall str, v = VStr str -> exists e, parse str = Throw e) ->
  storable v.
Proof.
  intros Hj Hs.
  destruct v as [| |b|n|x|str|l|f]; try discriminate Hj;
    try (eexists; split; [reflexivity|]; apply parse_text; exact Hj).
  exact (Hs str eq_refl).
Qed.

(** ** Concrete runs

    The statements above, and the places where the code departs from its
    description, evaluated on the in-memory store with the concrete [JSON]. *)

Import MemStore.

(** The two fixture states are what [initRedis()] leaves behind. *)
Lemma initRedis_connected (m : list (string * string)) :
  initRedis port no_overrides (loaded (mkMem m [] O))
  = (Ok tt, connected (mkMem m [] O), [CallConnect]).
Proof. reflexivity. Qed.

Lemma initRedis_refused (m : list (string * string)) :
  initRedis port no_overrides (loaded (mkMem m [true] O))
  = (Ok tt, refused (mkMem m [] O), [CallConnect]).
Proof. reflexivity. Qed.

(** C1.  Store available, key absent, handler [async () => "X"], the write
    of the fresh value fails: the handler runs twice in one [getOrSet]. *)
Theorem getOrSet_runs_handler_twice_when_write_fails :
  let '(r, s, t) :=
    getOrSet port "k" (constant (VStr "X")) None true
             (store_with_plan [false; true]) in
  r = Ok (VStr "X") /\
  t = [CallGet "myapp:k"; CallHandler;
       CallSetEx "myapp:k" 3600 (Some "X"); CallHandler] /\
  handler_calls t = 2%nat /\
  served (ext s) = 2%nat.
Proof. vm_compute. repeat split. Qed.

(** C2.  Store available, key absent, a handler whose first run throws
    [boom] and whose second run returns [X]: [getOrSet] does not throw, it
    runs the handler again and returns [X]. *)
Theorem getOrSet_swallows_handler_exception :
  let s := store_with_plan [] in
  getData port "k" true s = (Ok VNull, s, [CallGet "myapp:k"]) /\
  fst (flaky "boom" (VStr "X") s) = Throw (Error "boom") /\
  fst (fst (getOrSet port "k" (flaky "boom" (VStr "X")) None true s))
  = Ok (VStr "X") /\
  snd (getOrSet port "k" (flaky "boom" (VStr "X")) None true s)
  = [CallGet "myapp:k"; CallHandler; CallHandler].
Proof. vm_compute. repeat split. Qed.

(** C3.  Store available, key absent, handler [async () => ++counter], the
    write of the fresh value fails: the handler produced 1 (the value sent
    to the store), and [getOrSet] returns 2, the result of a second run. *)
Theorem getOrSet_returns_second_result_when_write_fails :
  let '(r, s, t) :=
    getOrSet port "k" ticket None true (store_with_plan [false; true]) in
  t = [CallGet "myapp:k"; CallHandler;
       CallSetEx "myapp:k" 3600 (Some "1"); CallHandler] /\
  r = Ok (VNum 2) /\
  failureCount s = 1.
Proof. vm_compute. repeat split. Qed.

(** C4.  Five reads on a closed circuit, failing and succeeding in turn:
    the two successes reset nothing, the third failure finds the count at 2
    and opens the circuit, although no two failures were consecutive. *)
Theorem alternating_failures_open_the_circuit :
  let reads :=
    (caught (getData port "k" true) ;; caught (getData port "k" true) ;;
     caught (getData port "k" true) ;; caught (getData port "k" true) ;;
     caught (getData port "k" true))%js in
  let '(_, s, t) := reads (store_with_plan [true; false; true; false; true]) in
  store_calls t = 5%nat /\
  failureCount s = 3 /\
  isCircuitOpen s = true /\
  isAvailable s = VBool false.
Proof. vm_compute. repeat split. Qed.

(** C5.  The recovery timer of an opening is never cancelled.  On a
    connected module three failures open the circuit at time 0; ten seconds
    later the client reports ['ready'], which closes it; three more
    failures open it again, at the third of them and with a recovery of its
    own due at 40,000 ms; and at 30,000 ms, twenty seconds into the window of
    that second opening, the timer of the first opening closes the circuit:
    [isAvailable()] returns [true] ten seconds early. *)
Theorem reopened_circuit_closes_before_its_window :
  let again :=
    run [Failure; Failure; Failure; Elapse 10000; Ready; Failure; Failure]
        (store_with_plan []) in
  let reopened := recordFailure again in
  let later := elapse 20000 reopened in
  (isCircuitOpen again = false /\ timers again = [30000]) /\
  (isCircuitOpen reopened = true /\ clock reopened = 10000 /\
   timers reopened = [30000; 40000] /\ isAvailable reopened = VBool false) /\
  (clock later = 30000 /\ isCircuitOpen later = false /\
   failureCount later = 0 /\ timers later = [40000] /\
   isAvailable later = VBool true).
Proof. vm_compute. repeat split. Qed.

(** The first opening on a concrete sequence: two failures a second apart,
    the opening failure, then two more failures within the next 29,999 ms. *)
Lemma circuit_opens_once_witness :
  let s := store_with_plan [] in
  let pre := [Failure; Elapse 1000; Failure] in
  let post := [Failure; Elapse 28000; Failure; Elapse 1999] in
  isCircuitOpen (run pre s) = false /\
  isCircuitOpen (recordFailure (run pre s)) = true /\
  timers (recordFailure (run pre s)) = [31000] /\
  isCircuitOpen (run post (recordFailure (run pre s))) = true /\
  timers (run post (recordFailure (run pre s))) = [31000] /\
  truthy (isAvailable (run post (recordFailure (run pre s)))) = false.
Proof.
  cbv zeta.
  assert (Hpre : Forall quiet [Failure; Elapse 1000; Failure])
    by (repeat constructor; simpl; lia).
  assert (Hpost : Forall quiet [Failure; Elapse 28000; Failure; Elapse 1999])
    by (repeat constructor; simpl; lia).
  destruct (circuit_opens_once_at_threshold (store_with_plan []) _ _
              eq_refl eq_refl eq_refl Hpre Hpost eq_refl eq_refl)
    as (H1 & H2 & H3 & H4).
  destruct (H1 [Failure; Elapse 1000; Failure] [] eq_refl) as [H1a _].
  destruct (H4 [Failure; Elapse 28000; Failure; Elapse 1999] [] eq_refl)
    as (H4a & H4b & H4c).
  split; [exact H1a|]. split; [exact H2|]. split; [exact H3|].
  split; [exact H4a|]. split; [|exact H4c].
  rewrite H4b. exact H3.
Defined.

(** C6 (as amended) on a concrete sequence, with a ready client: failures
    and a ['ready'] notification inside the window, then the last
    millisecond. *)
Lemma circuit_closes_witness :
  let s := store_with_plan [] in
  let es := [Failure; Elapse 10000; Ready; Failure; Elapse 19999] in
  isCircuitOpen (elapse 1 (run es (openCircuit s))) = false /\
  failureCount (elapse 1 (run es (openCircuit s))) = 0 /\
  isAvailable (elapse 1 (run es (openCircuit s))) = VBool true.
Proof.
  cbv zeta.
  assert (Hes : Forall forward [Failure; Elapse 10000; Ready; Failure; Elapse 19999])
    by (repeat constructor; simpl; lia).
  assert (Hge : RECOVERY_TIME
                <= elapsed [Failure; Elapse 10000; Ready; Failure; Elapse 19999] + 1)
    by (vm_compute; discriminate).
  destruct (circuit_closes_after_recovery_time (store_with_plan []) _ 1
              eq_refl Hes eq_refl Hge)
    as (H1 & H2 & H3 & H4).
  split; [exact H1|]. split; [exact H2|].
  apply H4. eexists. split; reflexivity.
Defined.

(** C6, as stated, fails when the client is not ready.  [initRedis()] was
    refused a connection and opened the circuit; [RECOVERY_TIME] later the
    circuit is closed and the count is 0, and [isAvailable()] is [false]. *)
Lemma unready_client_stays_unavailable_after_recovery :
  isCircuitOpen (elapse RECOVERY_TIME (refused empty)) = false /\
  failureCount (elapse RECOVERY_TIME (refused empty)) = 0 /\
  isAvailable (elapse RECOVERY_TIME (refused empty)) = VBool false.
Proof. vm_compute. repeat split. Qed.



(** C8 on a store whose next command fails, for each operation. *)
Lemma failed_command_witness :
  let s := store_with_plan [true] in
  let s1 := recordFailure after_failed_command in
  getData port "k" true s
  = (Throw connection_lost, s1, [CallGet "myapp:k"]) /\
  setData port "k" (VStr "v") None s
  = (Throw connection_lost, s1, [CallSetEx "myapp:k" 3600 (Some "v")]) /\
  setData port "k" (VStr "v") (Some 0) s
  = (Throw connection_lost, s1, [CallSet "myapp:k" (Some "v")]) /\
  deleteData port "k" s
  = (Throw connection_lost, s1, [CallDel "myapp:k"]) /\
  exists_ port "k" s
  = (Throw connection_lost, s1, [CallExists "myapp:k"]) /\
  setTTL port "k" 60 s
  = (Throw connection_lost, s1, [CallExpire "myapp:k" 60]) /\
  getTTL port "k" s
  = (Throw connection_lost, s1, [CallTtl "myapp:k"]) /\
  publish port "news" (VStr "hello") s
  = (Throw connection_lost, s1, [CallPublish "news" (Some "hello")]) /\
  subscribe port "news" (fun _ st => (Ok tt, st)) s
  = (Throw connection_lost, s1, [CallSubscribe "news"]) /\
  failureCount s1 = 1.
Proof.
  cbv zeta.
  destruct (failed_command_is_recorded_then_rethrown port
              (store_with_plan [true]) after_failed_command connection_lost
              eq_refl)
    as (Hget & Hsetex & Hset & Hdel & Hex & Hexp & Httl & Hpub & Hsub & Hcount & _).
  split; [apply Hget; reflexivity|].
  split; [apply (Hsetex "k" (VStr "v") None (Some "v")); [reflexivity|discriminate|reflexivity]|].
  split; [apply (Hset "k" (VStr "v") (Some 0) (Some "v")); reflexivity|].
  split; [apply Hdel; reflexivity|].
  split; [apply Hex; reflexivity|].
  split; [apply Hexp; reflexivity|].
  split; [apply Httl; reflexivity|].
  split; [apply (Hpub "news" (VStr "hello") (Some "hello") (mkClient true)); reflexivity|].
  split; [apply (Hsub "news" _ (mkClient true)); reflexivity|].
  exact Hcount.
Defined.

(** C9 on a module whose connection was refused (circuit open, client
    not ready), with the key present in the store. *)
Lemma unavailable_store_witness :
  let s := refused (mkMem [("myapp:k", "cached")] [] O) in
  getData port "k" true s = (Ok VNull, s, []) /\
  setData port "k" (VStr "v") None s = (Ok tt, s, []) /\
  deleteData port "k" s = (Ok 0, s, []) /\
  exists_ port "k" s = (Ok false, s, []) /\
  setTTL port "k" 60 s = (Ok false, s, []) /\
  getTTL port "k" s = (Ok (-2), s, []) /\
  getOrSet port "k" (constant (VStr "X")) None true s
  = (Ok (VStr "X"), bump s, [CallHandler]).
Proof.
  cbv zeta.
  destruct (unavailable_store_fallbacks port
              (refused (mkMem [("myapp:k", "cached")] [] O)) eq_refl)
    as (Hget & Hset & Hdel & Hex & Hexp & Httl & Hgos & _).
  split; [apply Hget|]. split; [apply Hset|]. split; [apply Hdel|].
  split; [apply Hex|]. split; [apply Hexp|]. split; [apply Httl|].
  apply Hgos. reflexivity.
Defined.


(** *** Instances of the further properties *)

(** X1 after four failures, a second, a ['ready'] notification and one more
    failure. *)
Lemma breaker_invariant_witness :
  let s1 := run [Failure; Failure; Failure; Failure; Elapse 1000; Ready; Failure]
                (store_with_plan []) in
  0 <= failureCount s1 /\
  (isCircuitOpen s1 = false -> failureCount s1 < FAILURE_THRESHOLD) /\
  (isCircuitOpen s1 = true -> timers s1 <> []) /\
  Forall (fun d => clock s1 < d <= clock s1 + RECOVERY_TIME) (timers s1).
Proof.
  apply (breaker_invariant_holds
           [Failure; Failure; Failure; Failure; Elapse 1000; Ready; Failure]
           (store_with_plan [])); try reflexivity.
  repeat constructor; simpl; lia.
Defined.

(** X2 after the circuit opened and one more failure was recorded. *)
Lemma circuit_never_stays_open_witness :
  let s1 := elapse 30000
              (run [Failure; Failure; Failure; Elapse 5000; Failure]
                   (store_with_plan [])) in
  isCircuitOpen s1 = false /\ timers s1 = [] /\
  failureCount s1 < FAILURE_THRESHOLD.
Proof.
  apply (circuit_never_stays_open
           [Failure; Failure; Failure; Elapse 5000; Failure]
           (store_with_plan []) 30000); try reflexivity.
  repeat constructor; simpl; lia.
Defined.

(** X3: the circuit opened at 0, was closed by ['ready'] at 10,000 and
    reopens at once; the timer of the first opening closes it at 30,000. *)
Lemma stale_timer_witness :
  let s1 := elapse 20000 (openCircuit reconnected) in
  isCircuitOpen s1 = false /\ failureCount s1 = 0 /\
  In (clock reconnected + RECOVERY_TIME) (timers s1).
Proof.
  apply (stale_timer_closes_early reconnected 30000 20000).
  - reflexivity.
  - left. reflexivity.
  - vm_compute. discriminate.
  - reflexivity.
Defined.

(** X4 at 5 and at 31 retries. *)
Lemma reconnectStrategy_witness :
  reconnectStrategy 5 = 5 * 100 /\ reconnectStrategy 31 = 3000 /\
  reconnectStrategy 5 <= reconnectStrategy 31.
Proof.
  destruct reconnectStrategy_bounds as (_ & Hmono & Hlin & Hcap).
  split; [apply Hlin; lia|]. split; [apply Hcap; lia|]. apply Hmono. lia.
Defined.

(** X6 on a store that refuses the connection. *)
Lemma failed_initRedis_witness :
  initRedis port no_overrides (loaded (mkMem [] [true] O))
  = (Ok tt, refused empty, [CallConnect]) /\
  currentConfig (refused empty) = defaultConfig /\
  getData port "k" true (refused empty) = (Ok VNull, refused empty, []) /\
  getOrSet port "k" (constant (VStr "X")) None true (refused empty)
  = (Ok (VStr "X"), bump (refused empty), [CallHandler]).
Proof.
  destruct (failed_initRedis_leaves_store_unavailable port no_overrides
              (loaded (mkMem [] [true] O))
              (snd (connect (prepared (mkClient false) defaultConfig
                                      (loaded (mkMem [] [true] O)))))
              (mkClient false) (Error "connect ECONNREFUSED")
              eq_refl eq_refl)
    as (Hinit & (Hcfg & _) & _ & Hget & Hgos).
  split; [exact Hinit|]. split; [exact Hcfg|]. split; [exact (Hget "k" true)|].
  exact (Hgos "k" (constant (VStr "X")) None true (VStr "X") _ eq_refl).
Defined.

(** X7 with an empty URL, which [strict_port] rejects. *)
Lemma initRedis_without_client_witness :
  exists s',
    initRedis strict_port (mkUserConfig (Some "") None None) (loaded empty)
    = (Ok tt, s', []) /\
    isCircuitOpen s' = true /\
    currentConfig s' = mkConfig "" "myapp:" 3600 /\
    redisClient s' = None /\ redisPublisher s' = None /\
    redisSubscriber s' = None.
Proof.
  exact (initRedis_without_client strict_port
           (mkUserConfig (Some "") None None) (loaded empty)
           (Error "Invalid URL") eq_refl).
Defined.

(** X9 on a store whose next command fails. *)
Lemma operations_throw_witness :
  unavailable (store_with_plan [true]) = false /\
  exists s1,
    client_get port (getKey (store_with_plan [true]) "k") (store_with_plan [true])
    = (Throw connection_lost, s1) /\
    recordFailure after_failed_command = recordFailure s1.
Proof.
  destruct (operations_throw_only_store_errors port (store_with_plan [true])
              connection_lost (recordFailure after_failed_command)
              [CallGet "myapp:k"])
    as (Hget & _).
  exact (Hget "k" true eq_refl).
Defined.

(** X10 on a key that holds text which is not JSON. *)
Lemma getData_tolerates_witness :
  let s := connected (mkMem [("myapp:k", "not json")] [] O) in
  exists v,
    getData port "k" true s = (Ok v, s, [CallGet (getKey s "k")]) /\
    (Some "not json" = None \/ Some "not json" = Some "" -> v = VNull) /\
    (forall raw, Some "not json" = Some raw -> raw <> "" ->
       (true = false -> v = VStr raw) /\
       (forall e, JSON_parse raw = Throw e -> v = VStr raw) /\
       (forall w, true = true -> JSON_parse raw = Ok w -> v = w)).
Proof.
  exact (getData_tolerates_any_reply port
           (connected (mkMem [("myapp:k", "not json")] [] O))
           (connected (mkMem [("myapp:k", "not json")] [] O))
           "k" true (Some "not json") eq_refl eq_refl).
Defined.

(** X13 on a key that holds an array; the handler would throw if run. *)
Lemma getOrSet_cache_hit_witness :
  let s := connected (mkMem [("myapp:k", "[1,2]")] [] O) in
  getOrSet port "k" (failing "must not run") None true s
  = (Ok (VArr [VNum 1; VNum 2]), s, [CallGet "myapp:k"]).
Proof.
  assert (Hne : "[1,2]" <> "") by discriminate.
  exact (getOrSet_cache_hit port
           (connected (mkMem [("myapp:k", "[1,2]")] [] O))
           (connected (mkMem [("myapp:k", "[1,2]")] [] O))
           "k" (failing "must not run") None true "[1,2]"
           eq_refl eq_refl Hne eq_refl).
Defined.

(** X14 on an empty store. *)
Lemma getOrSet_miss_witness :
  let s := store_with_plan [] in
  getOrSet port "k" (constant (VStr "X")) None true s
  = (Ok (VStr "X"),
     snd (client_setEx port "myapp:k" 3600 (Some "X") (bump s)),
     [CallGet "myapp:k"; CallHandler; CallSetEx "myapp:k" 3600 (Some "X")]).
Proof.
  exact (getOrSet_miss_writes_through port
           (store_with_plan []) (store_with_plan []) (bump (store_with_plan []))
           (snd (client_setEx port "myapp:k" 3600 (Some "X")
                              (bump (store_with_plan []))))
           "k" (constant (VStr "X")) None true None (VStr "X") (Some "X")
           eq_refl eq_refl eq_refl eq_refl eq_refl eq_refl eq_refl eq_refl).
Defined.

(** X15 with a handler that finds nothing. *)
Lemma getOrSet_miss_without_write_witness :
  let s := store_with_plan [] in
  getOrSet port "k" (constant VNull) None true s
  = (Ok VNull, bump s, [CallGet "myapp:k"; CallHandler]).
Proof.
  exact (getOrSet_miss_without_write port
           (store_with_plan []) (store_with_plan []) (bump (store_with_plan []))
           "k" (constant VNull) None true None VNull
           eq_refl eq_refl eq_refl eq_refl (or_introl eq_refl)).
Defined.

(** X16 on a store whose read fails. *)
Lemma getOrSet_read_failure_witness :
  getOrSet port "k" (constant (VStr "X")) None true (store_with_plan [true])
  = (Ok (VStr "X"), bump (recordFailure after_failed_command),
     [CallGet "myapp:k"; CallHandler]).
Proof.
  exact (getOrSet_read_failure_falls_back port
           (store_with_plan [true]) after_failed_command
           "k" (constant (VStr "X")) None true connection_lost
           eq_refl eq_refl).
Defined.

(** X17 with a handler that always throws. *)
Lemma getOrSet_throws_witness :
  exists s0,
    failing "boom" s0 = (Throw (Error "boom"), bump (bump (store_with_plan []))).
Proof.
  exact (getOrSet_throws_only_handler_errors port
           (store_with_plan []) (bump (bump (store_with_plan [])))
           "k" (failing "boom") None true (Error "boom")
           [CallGet "myapp:k"; CallHandler; CallHandler] eq_refl).
Defined.

(** X12 with an object that holds a fractional number, on an empty store. *)
Lemma setData_then_getData_witness :
  let v := VObj [("id", VNum 1); ("price", VFloat (Dyadic 3 1))] in
  let s := store_with_plan [] in
  let s1 := snd (client_setEx port "myapp:user:1" 3600 (Some (text v)) s) in
  storable v /\
  (setData port "user:1" v None ;; getData port "user:1" true)%js s
  = (Ok v, s1,
     [CallSetEx "myapp:user:1" 3600 (Some (text v)); CallGet "myapp:user:1"]).
Proof.
  cbv zeta.
  assert (Hv : storable (VObj [("id", VNum 1); ("price", VFloat (Dyadic 3 1))])).
  { eexists. split; [reflexivity|vm_compute; reflexivity]. }
  split; [exact Hv|].
  apply (setData_then_getData port "user:1" _ None
           (text (VObj [("id", VNum 1); ("price", VFloat (Dyadic 3 1))]))
           (store_with_plan [])
           (snd (client_setEx port "myapp:user:1" 3600
                   (Some (text (VObj [("id", VNum 1); ("price", VFloat (Dyadic 3 1))])))
                   (store_with_plan [])))
           (snd (client_setEx port "myapp:user:1" 3600
                   (Some (text (VObj [("id", VNum 1); ("price", VFloat (Dyadic 3 1))])))
                   (store_with_plan []))) Hv);
    try (vm_compute; reflexivity).
  vm_compute. discriminate.
Defined.

(** X20 with an object and a callback that accepts objects only. *)
Lemma published_value_witness :
  storable (VObj [("id", VNum 1)]) /\
  listener picky (text (VObj [("id", VNum 1)])) (store_with_plan [])
  = (Ok tt, bump (store_with_plan [])).
Proof.
  assert (Hv : storable (VObj [("id", VNum 1)])).
  { eexists. split; [reflexivity|vm_compute; reflexivity]. }
  split; [exact Hv|].
  apply (published_value_is_delivered picky (VObj [("id", VNum 1)])
           (text (VObj [("id", VNum 1)])) (store_with_plan [])
           (bump (store_with_plan [])) tt Hv); reflexivity.
Defined.

(** X21 with the message [123]: the callback rejects the number, is called
    again with the text and rejects that too. *)
Lemma listener_throws_witness :
  exists s0,
    picky (VStr "123") s0
    = (Throw (Error "not an object"), bump (bump (store_with_plan []))).
Proof.
  exact (listener_throws_only_on_raw_delivery picky "123" (store_with_plan [])
           (bump (bump (store_with_plan []))) (Error "not an object") eq_refl).
Defined.

